(** * Transcriptor-multimedia: the audio splitter and its WAV encoder

    A shallow embedding of [splitAudioFile], [audioBufferToWav] and
    [processAndSplitAudio] (TypeScript), and the properties of the
    re-chunking pipeline that are checked against it.

    Modelling conventions.
    - A JavaScript [number] is an IEEE 754 binary64 value: [spec_float]
      with precision 53 and exponent bound 1024, with the arithmetic of
      [SpecFloat] (round to nearest, ties to even).
    - Numbers that the platform types as integers (array lengths, loop
      counters, byte offsets, channel counts, the sample rate in Hz) are
      [nat] or [Z]; they are converted with [of_Z] where the source mixes
      them with fractional values.  All of them stay far below 2^53, where
      binary64 arithmetic on integers is exact.
    - A byte is a [Z] in [0, 256); an [ArrayBuffer] is a [list Z].
    - A JavaScript string is a [string]; a character stands for one code
      unit.
    - An exception is a [Throw] in the [result] monad; a loop whose number
      of iterations is not known beforehand takes fuel. *)

From Stdlib Require Import ZArith Lia Bool List String Ascii.
From Stdlib Require Import Floats.SpecFloat DecimalString DecimalFacts DecimalNat.
From stdpp Require Import base tactics option list strings gmap.

Local Open Scope Z_scope.

(* ===================================================================== *)
(** ** JavaScript numbers *)
(* ===================================================================== *)

Definition number : Type := spec_float.

Definition prec : Z := 53.
Definition emax : Z := 1024.

(** An integer as a number (exact below 2^53). *)
Definition of_Z (z : Z) : number := binary_normalize prec emax z 0 false.

Definition mul : number -> number -> number := SFmul prec emax.
Definition div : number -> number -> number := SFdiv prec emax.
Definition add : number -> number -> number := SFadd prec emax.
Definition sub : number -> number -> number := SFsub prec emax.

(** [x < y] and [x <= y]; both are false when an operand is NaN. *)
Definition ltb : number -> number -> bool := SFltb.
Definition leb : number -> number -> bool := SFleb.

(** A value of the binary64 format (canonical significand and exponent). *)
Definition is_number (x : number) : bool := valid_binary prec emax x.

(** [Math.min] and [Math.max]: NaN if an operand is NaN, and -0 < +0. *)
Definition Math_min (a b : number) : number :=
  match SFcompare a b with
  | None => S754_nan
  | Some Lt => a
  | Some Gt => b
  | Some Eq =>
      match a, b with
      | S754_zero sa, S754_zero sb => S754_zero (sa || sb)
      | _, _ => a
      end
  end.

Definition Math_max (a b : number) : number :=
  match SFcompare a b with
  | None => S754_nan
  | Some Lt => b
  | Some Gt => a
  | Some Eq =>
      match a, b with
      | S754_zero sa, S754_zero sb => S754_zero (sa && sb)
      | _, _ => a
      end
  end.

(** The signed significand of a finite number, and [v * 2^e] rounded to an
    integer downwards, upwards and towards zero. *)
Definition signed (s : bool) (m : positive) : Z := cond_Zopp s (Zpos m).

Definition scale_floor (v e : Z) : Z :=
  if 0 <=? e then v * 2 ^ e else v / 2 ^ (- e).

Definition scale_ceil (v e : Z) : Z :=
  if 0 <=? e then v * 2 ^ e else - ((- v) / 2 ^ (- e)).

Definition scale_trunc (v e : Z) : Z :=
  if 0 <=? e then v * 2 ^ e else Z.quot v (2 ^ (- e)).

(** [Math.floor] and [Math.ceil]; NaN, the infinities and the zeros are
    returned as they are, and a zero result keeps the sign of the operand. *)
Definition Math_floor (x : number) : number :=
  match x with
  | S754_finite s m e =>
      binary_normalize prec emax (scale_floor (signed s m) e) 0 s
  | _ => x
  end.

Definition Math_ceil (x : number) : number :=
  match x with
  | S754_finite s m e =>
      binary_normalize prec emax (scale_ceil (signed s m) e) 0 s
  | _ => x
  end.

(** The integer part of a number, as the modular conversions of ECMAScript
    take it: NaN, the zeros and the infinities give 0. *)
Definition truncZ (x : number) : Z :=
  match x with
  | S754_finite s m e => scale_trunc (signed s m) e
  | _ => 0
  end.

Definition ToUint32 (x : number) : Z := truncZ x mod 2 ^ 32.
Definition ToUint16 (x : number) : Z := truncZ x mod 2 ^ 16.
Definition ToInt16 (x : number) : Z :=
  let u := ToUint16 x in if 2 ^ 15 <=? u then u - 2 ^ 16 else u.

(** The relative index of [TypedArray.prototype.subarray] and
    [Blob.prototype.slice]: ToIntegerOrInfinity, a negative index counts
    from the end, and the result is clamped to [0, len]. *)
Definition clampIndex (t : Z) (len : nat) : nat :=
  if t <? 0 then Z.to_nat (Z.max (Z.of_nat len + t) 0)
  else Z.to_nat (Z.min t (Z.of_nat len)).

Definition relativeIndex (x : number) (len : nat) : nat :=
  match x with
  | S754_infinity false => len
  | S754_infinity true => 0%nat
  | _ => clampIndex (truncZ x) len
  end.

(* ===================================================================== *)
(** ** Exceptions *)
(* ===================================================================== *)

Inductive exn : Type := RangeError | NotSupportedError.

Inductive result (A : Type) : Type :=
| Ok (a : A)
| Throw (e : exn).
Arguments Ok {A} a.
Arguments Throw {A} e.

#[global] Instance result_ret : MRet result := fun A a => Ok a.
#[global] Instance result_bind : MBind result := fun A B f m =>
  match m with
  | Ok a => f a
  | Throw e => Throw e
  end.

(** [for (let i = 0; i < n; i++) body]: the loop variable is passed to the
    body, the state is threaded, an exception leaves the loop. *)
Fixpoint for_from {St : Type} (i : nat) (n : nat)
    (body : nat -> St -> result St) (s : St) : result St :=
  match n with
  | O => Ok s
  | S n' => s' ← body i s; for_from (S i) n' body s'
  end.

Definition for_ {St : Type} (n : nat) (body : nat -> St -> result St)
    (s : St) : result St :=
  for_from 0 n body s.

(* ===================================================================== *)
(** ** DataView over an ArrayBuffer *)
(* ===================================================================== *)

Abbreviation ArrayBuffer := (list Z).

(** [new ArrayBuffer(n)] is zero-filled. *)
Definition new_ArrayBuffer (n : nat) : ArrayBuffer := replicate n 0.

(** The setters raise a RangeError when the bytes written do not lie inside
    the buffer. *)
Definition setUint8 (view : ArrayBuffer) (offset : nat) (v : Z)
  : result ArrayBuffer :=
  if (offset + 1 <=? length view)%nat
  then Ok (<[offset := v mod 256]> view)
  else Throw RangeError.

(** Little endian: the low byte first. *)
Definition setUint16 (view : ArrayBuffer) (offset : nat) (v : Z)
  : result ArrayBuffer :=
  if (offset + 2 <=? length view)%nat
  then
    let u := v mod 2 ^ 16 in
    Ok (<[S offset := u / 256]> (<[offset := u mod 256]> view))
  else Throw RangeError.

Definition setUint32 (view : ArrayBuffer) (offset : nat) (v : Z)
  : result ArrayBuffer :=
  if (offset + 4 <=? length view)%nat
  then
    let u := v mod 2 ^ 32 in
    Ok (<[S (S (S offset)) := u / 2 ^ 24]>
        (<[S (S offset) := (u / 2 ^ 16) mod 256]>
         (<[S offset := (u / 256) mod 256]>
          (<[offset := u mod 256]> view))))
  else Throw RangeError.

(** [setInt16] receives a number; it is converted by ToInt16, that is
    truncated towards zero and reduced modulo 2^16. *)
Definition setInt16 (view : ArrayBuffer) (offset : nat) (x : number)
  : result ArrayBuffer :=
  setUint16 view offset (ToInt16 x).

Definition charCodeAt (str : string) (i : nat) : Z :=
  match String.get i str with
  | Some c => Z.of_nat (nat_of_ascii c)
  | None => 0
  end.

(* ===================================================================== *)
(** ** AudioBuffer and Blob *)
(* ===================================================================== *)

(** An AudioBuffer: its sample rate in Hz, its length in frames and the
    sample data of each channel (a Float32Array, one number per frame). *)
Record AudioBuffer : Type := {
  sampleRate : Z;
  frames : nat;
  channelData : list (list number);
}.

Definition numberOfChannels (buffer : AudioBuffer) : nat :=
  length (channelData buffer).

(** Modelled from the spec: [AudioBuffer.duration] is platform code;
    the spec's data model gives totalDurationSeconds = L / sampleRate. *)
Definition duration (buffer : AudioBuffer) : number :=
  div (of_Z (Z.of_nat (frames buffer))) (of_Z (sampleRate buffer)).

Definition getChannelData (buffer : AudioBuffer) (channel : nat)
  : list number :=
  nth channel (channelData buffer) [].

(** Reading a typed array past its end gives [undefined], which is NaN in
    arithmetic. *)
Definition sampleAt (data : list number) (i : nat) : number :=
  nth i data S754_nan.

(** Every channel holds one sample per frame. *)
Definition wf_buffer (buffer : AudioBuffer) : Prop :=
  Forall (fun c => length c = frames buffer) (channelData buffer).

Record Blob : Type := {
  blob_bytes : list Z;
  blob_type : string;
}.

(* ===================================================================== *)
(** ** [audioBufferToWav] *)
(* ===================================================================== *)

(** The helper [writeString] of the encoder: one [setUint8] per character. *)
Definition writeString (view : ArrayBuffer) (offset : nat) (str : string)
  : result ArrayBuffer :=
  for_ (String.length str)
       (fun i view => setUint8 view (offset + i) (charCodeAt str i))
       view.

(** [Math.max(-1, Math.min(1, sample))]. *)
Definition clampedSample (sample : number) : number :=
  Math_max (of_Z (-1)) (Math_min (of_Z 1) sample).

(** [clampedSample < 0 ? clampedSample * 0x8000 : clampedSample * 0x7FFF]. *)
Definition intSample (sample : number) : number :=
  let clamped := clampedSample sample in
  if ltb clamped (of_Z 0)
  then mul clamped (of_Z 32768)
  else mul clamped (of_Z 32767).

(** The body of the inner loop: one sample of one channel is written at
    [offset], and [offset] advances by two. *)
Definition writeSample (buffer : AudioBuffer) (i channel : nat)
    (st : ArrayBuffer * nat) : result (ArrayBuffer * nat) :=
  let '(view, offset) := st in
  let sample := sampleAt (getChannelData buffer channel) i in
  view' ← setInt16 view offset (intSample sample);
  mret (view', (offset + 2)%nat).

Definition audioBufferToWav (buffer : AudioBuffer) : result Blob :=
  let numChannels := numberOfChannels buffer in
  let sampleRate := sampleRate buffer in
  let format := 1 in
  let bitDepth := 16%nat in
  let numSamples := frames buffer in
  let dataSize := (numSamples * numChannels * (bitDepth / 8))%nat in
  let blockAlign := (numChannels * (bitDepth / 8))%nat in
  let byteRate := sampleRate * Z.of_nat blockAlign in
  let headerSize := 44%nat in
  let bufferSize := (headerSize + dataSize)%nat in
  let view := new_ArrayBuffer bufferSize in
  (* RIFF header *)
  view ← writeString view 0 "RIFF";
  view ← setUint32 view 4 (36 + Z.of_nat dataSize);
  view ← writeString view 8 "WAVE";
  (* fmt sub-chunk *)
  view ← writeString view 12 "fmt ";
  view ← setUint32 view 16 16;
  view ← setUint16 view 20 format;
  view ← setUint16 view 22 (Z.of_nat numChannels);
  view ← setUint32 view 24 sampleRate;
  view ← setUint32 view 28 byteRate;
  view ← setUint16 view 32 (Z.of_nat blockAlign);
  view ← setUint16 view 34 (Z.of_nat bitDepth);
  (* data sub-chunk *)
  view ← writeString view 36 "data";
  view ← setUint32 view 40 (Z.of_nat dataSize);
  (* the PCM data *)
  st ← for_ numSamples
         (fun i => for_ numChannels (writeSample buffer i))
         (view, 44%nat);
  mret {| blob_bytes := st.1; blob_type := "audio/wav" |}.

(* ===================================================================== *)
(** ** Strings *)
(* ===================================================================== *)

(** [str.lastIndexOf(c)]: the index of the last occurrence, or -1. *)
Fixpoint lastIndexOf_from (str : string) (c : ascii) (i : Z) (found : Z) : Z :=
  match str with
  | EmptyString => found
  | String a rest =>
      lastIndexOf_from rest c (i + 1) (if Ascii.eqb a c then i else found)
  end.

Definition lastIndexOf (str : string) (c : ascii) : Z :=
  lastIndexOf_from str c 0 (-1).

(** [str.substring(0, e)]: a negative [e] counts as 0, one past the end as
    the length. *)
Definition substring0 (str : string) (e : Z) : string :=
  String.substring 0 (Z.to_nat e) str.

(** [a || b] on strings: the empty string is falsy. *)
Definition or_else (a b : string) : string :=
  match a with
  | EmptyString => b
  | _ => a
  end.

(** [String(n)] for a non-negative integer below 10^21: its decimal digits. *)
Definition String_of (n : nat) : string :=
  NilEmpty.string_of_uint (Nat.to_uint n).

Fixpoint zeros (n : nat) : string :=
  match n with
  | O => EmptyString
  | S n' => String "0" (zeros n')
  end.

(** [str.padStart(target, '0')]: pads on the left up to [target]
    characters and leaves a longer string as it is. *)
Definition padStart0 (target : nat) (str : string) : string :=
  zeros (target - String.length str) +:+ str.

(* ===================================================================== *)
(** ** [processAndSplitAudio] *)
(* ===================================================================== *)

(** [BaseAudioContext.createBuffer]: the Web Audio API raises a
    NotSupportedError for a channel count or a length of zero; the new
    buffer is silent.  The length is an [unsigned long]. *)
Definition createBuffer (channels : nat) (frameCount : number) (rate : Z)
  : result AudioBuffer :=
  let len := Z.to_nat (ToUint32 frameCount) in
  if (channels =? 0)%nat || (len =? 0)%nat
  then Throw NotSupportedError
  else Ok {| sampleRate := rate;
             frames := len;
             channelData := replicate channels (replicate len (of_Z 0)) |}.

(** [data.subarray(b, e)]. *)
Definition subarray (data : list number) (b e : number) : list number :=
  let from := relativeIndex b (length data) in
  let to := relativeIndex e (length data) in
  take (to - from) (drop from data).

(** [target.set(source)]: a RangeError when the source is longer than the
    target, else the source over the first elements of the target. *)
Definition typedArray_set (target source : list number)
  : result (list number) :=
  if (length source <=? length target)%nat
  then Ok (source ++ drop (length source) target)
  else Throw RangeError.

(** The messages handed to [onProgress]:
    'Decodificando el archivo...' and
    'Procesando trozo <chunkNumber> de <totalChunks>...'. *)
Inductive progress : Type :=
| Decodificando
| Procesando (chunkNumber : nat) (totalChunks : number).

Record EncodedChunk : Type := {
  name : string;
  blob : Blob;
}.

(** What the caller of the asynchronous function observes: the messages
    reported so far, and the promise resolved with the chunks, rejected
    with an exception, or not settled within the fuel. *)
Inductive outcome : Type :=
| Resolved (log : list progress) (chunks : list EncodedChunk)
| Rejected (log : list progress) (e : exn)
| Pending.

Section Chunking.
(** [file.name], the decoded buffer and the chunk duration in seconds. *)
Variable fileName : string.
Variable decodedBuffer : AudioBuffer.
Variable chunkDurationInSeconds : number.

Definition totalDuration : number := duration decodedBuffer.

Definition totalChunks : number :=
  Math_ceil (div totalDuration chunkDurationInSeconds).

Definition startTime (i : nat) : number :=
  mul (of_Z (Z.of_nat i)) chunkDurationInSeconds.

Definition endTime (i : nat) : number :=
  Math_min (add (startTime i) chunkDurationInSeconds) totalDuration.

Definition startOffset (i : nat) : number :=
  Math_floor (mul (startTime i) (of_Z (sampleRate decodedBuffer))).

Definition endOffset (i : nat) : number :=
  Math_floor (mul (endTime i) (of_Z (sampleRate decodedBuffer))).

Definition frameCount (i : nat) : number :=
  sub (endOffset i) (startOffset i).

(** The two guards that end an iteration with [continue]. *)
Definition degenerate (i : nat) : bool :=
  leb (endTime i) (startTime i) || leb (frameCount i) (of_Z 0).

(** The copy loop over the channels. *)
Definition copyChannel (i channel : nat) (chunkBuffer : AudioBuffer)
  : result AudioBuffer :=
  let data := getChannelData decodedBuffer channel in
  let chunkChannelData := getChannelData chunkBuffer channel in
  copied ← typedArray_set chunkChannelData
             (subarray data (startOffset i) (endOffset i));
  mret {| sampleRate := sampleRate chunkBuffer;
          frames := frames chunkBuffer;
          channelData := <[channel := copied]> (channelData chunkBuffer) |}.

Definition originalFileName : string :=
  or_else (substring0 fileName (lastIndexOf fileName ".")) fileName.

Definition chunkName (chunkNumber : nat) : string :=
  originalFileName +:+ "_parte_" +:+ padStart0 2 (String_of chunkNumber)
    +:+ ".wav".

(** One iteration of the loop, after its call of [onProgress]. *)
Definition iteration (i : nat) (chunks : list EncodedChunk)
  : result (list EncodedChunk) :=
  let chunkNumber := (i + 1)%nat in
  if leb (endTime i) (startTime i) then Ok chunks
  else if leb (frameCount i) (of_Z 0) then Ok chunks
  else
    chunkBuffer ← createBuffer (numberOfChannels decodedBuffer)
                    (frameCount i) (sampleRate decodedBuffer);
    chunkBuffer ← for_ (numberOfChannels decodedBuffer) (copyChannel i)
                    chunkBuffer;
    wavBlob ← audioBufferToWav chunkBuffer;
    mret (chunks ++ [{| name := chunkName chunkNumber; blob := wavBlob |}]).

(** [for (let i = 0; i < totalChunks; i++)]: [onProgress] is called first
    in every iteration.  The counter [i] is a binary64 number in the
    source, an exact integer up to 2^53; here it counts in [nat], and
    the two agree for the first 2^53 iterations. *)
Fixpoint chunkLoop (fuel : nat) (i : nat) (log : list progress)
    (chunks : list EncodedChunk) : outcome :=
  match fuel with
  | O => Pending
  | S fuel' =>
      if ltb (of_Z (Z.of_nat i)) totalChunks then
        let chunkNumber := (i + 1)%nat in
        let log' := log ++ [Procesando chunkNumber totalChunks] in
        match iteration i chunks with
        | Ok chunks' => chunkLoop fuel' (S i) log' chunks'
        | Throw e => Rejected log' e
        end
      else Resolved log chunks
  end.

Definition processAndSplitAudio (fuel : nat) : outcome :=
  chunkLoop fuel 0 [Decodificando] [].

(** The frame windows of the iterations that emit a chunk, in order:
    the loop above with the encoding left out. *)
Fixpoint windowsFrom (fuel : nat) (i : nat) : option (list (Z * Z)) :=
  match fuel with
  | O => None
  | S fuel' =>
      if ltb (of_Z (Z.of_nat i)) totalChunks then
        rest ← windowsFrom fuel' (S i);
        if degenerate i then Some rest
        else Some ((truncZ (startOffset i), truncZ (endOffset i)) :: rest)
      else Some []
  end.

Definition emittedWindows (fuel : nat) : option (list (Z * Z)) :=
  windowsFrom fuel 0.
End Chunking.

(* ===================================================================== *)
(** ** [splitAudioFile] *)
(* ===================================================================== *)

(** A File is a Blob with a name. *)
Record File : Type := {
  file_name : string;
  file_blob : Blob;
}.

Definition size (b : Blob) : Z := Z.of_nat (length (blob_bytes b)).

(** [blob.slice(start, end, contentType)]. *)
Definition slice (b : Blob) (start end_ : Z) (contentType : string) : Blob :=
  let len := length (blob_bytes b) in
  let from := clampIndex start len in
  let to := clampIndex end_ len in
  {| blob_bytes := take (to - from) (drop from (blob_bytes b));
     blob_type := contentType |}.

(** [while (start < file.size)]. *)
Fixpoint splitLoop (fuel : nat) (file : Blob) (chunkSizeInBytes : Z)
    (start : Z) (chunks : list Blob) : option (list Blob) :=
  match fuel with
  | O => None
  | S fuel' =>
      if start <? size file then
        let end_ := Z.min (start + chunkSizeInBytes) (size file) in
        let chunk := slice file start end_ (blob_type file) in
        splitLoop fuel' file chunkSizeInBytes end_ (chunks ++ [chunk])
      else Some chunks
  end.

Definition splitAudioFile (fuel : nat) (file : File) (chunkSizeInBytes : Z)
  : option (list Blob) :=
  if size (file_blob file) <=? chunkSizeInBytes then Some [file_blob file]
  else splitLoop fuel (file_blob file) chunkSizeInBytes 0 [].

(* ===================================================================== *)
(** ** Test inputs *)
(* ===================================================================== *)

Definition half : number := S754_finite false 4503599627370496 (-53).
Definition one_and_a_half : number := S754_finite false 6755399441055744 (-52).

Definition silence (n : nat) : list number := replicate n (of_Z 0).

Definition mono (rate : Z) (data : list number) : AudioBuffer :=
  {| sampleRate := rate; frames := length data; channelData := [data] |}.

(* ===================================================================== *)
(** ** Reading a WAV blob back *)
(* ===================================================================== *)

(** The [n] bytes at [offset]. *)
Definition field (bytes : list Z) (offset n : nat) : list Z :=
  take n (drop offset bytes).

(** The unsigned integer that a little-endian byte sequence stands for. *)
Fixpoint le_combine (bytes : list Z) : Z :=
  match bytes with
  | [] => 0
  | b :: rest => b + 256 * le_combine rest
  end.

(** The same two bytes read as a signed 16-bit integer. *)
Definition int16_of (bytes : list Z) : Z :=
  let u := le_combine bytes in if 2 ^ 15 <=? u then u - 2 ^ 16 else u.

Definition ascii_codes (str : string) : list Z :=
  map (fun c => Z.of_nat (nat_of_ascii c)) (list_ascii_of_string str).

(** The sample of [channel] in frame [i], as the encoder stores it. *)
Definition pcmSample (buffer : AudioBuffer) (i channel : nat) : Z :=
  ToInt16 (intSample (sampleAt (getChannelData buffer channel) i)).

(** The two bytes that [setUint16] stores for [v]. *)
Definition bytes16 (v : Z) : list Z :=
  let u := v mod 2 ^ 16 in [u mod 256; u / 256].

Definition bytes32 (v : Z) : list Z :=
  let u := v mod 2 ^ 32 in
  [u mod 256; (u / 256) mod 256; (u / 2 ^ 16) mod 256; u / 2 ^ 24].

(** The PCM data frame by frame, and inside a frame channel by channel. *)
Definition frameBytes (buffer : AudioBuffer) (i : nat) : list Z :=
  flat_map (fun channel => bytes16 (pcmSample buffer i channel))
           (seq 0 (numberOfChannels buffer)).

Definition pcmBytes (buffer : AudioBuffer) : list Z :=
  flat_map (frameBytes buffer) (seq 0 (frames buffer)).

Definition dataSizeOf (buffer : AudioBuffer) : nat :=
  (frames buffer * numberOfChannels buffer * 2)%nat.

Definition headerBytes (buffer : AudioBuffer) : list Z :=
  ascii_codes "RIFF" ++ bytes32 (36 + Z.of_nat (dataSizeOf buffer))
  ++ ascii_codes "WAVE" ++ ascii_codes "fmt " ++ bytes32 16 ++ bytes16 1
  ++ bytes16 (Z.of_nat (numberOfChannels buffer))
  ++ bytes32 (sampleRate buffer)
  ++ bytes32 (sampleRate buffer * Z.of_nat (numberOfChannels buffer * 2))
  ++ bytes16 (Z.of_nat (numberOfChannels buffer * 2)) ++ bytes16 16
  ++ ascii_codes "data" ++ bytes32 (Z.of_nat (dataSizeOf buffer)).

Definition wavBlob (buffer : AudioBuffer) : Blob :=
  {| blob_bytes := headerBytes buffer ++ pcmBytes buffer;
     blob_type := "audio/wav" |}.

(** Modelled from the spec: the quantization rule of section 4.3 in the
    spec's words, with [round] as rounding to the nearest integer (a tie
    goes away from zero): the clamped sample times 32768 when it is
    negative, times 32767 otherwise, rounded. *)
Definition scale_round (v e : Z) : Z :=
  if 0 <=? e then v * 2 ^ e
  else Z.sgn v * ((2 * Z.abs v + 2 ^ (- e)) / (2 * 2 ^ (- e))).

Definition roundZ (x : number) : Z :=
  match x with
  | S754_finite s m e => scale_round (signed s m) e
  | _ => 0
  end.

Definition spec_quantize (sample : number) : Z :=
  roundZ (intSample sample).

Definition quarter : number := S754_finite false 4503599627370496 (-54).

(** The buffer that one iteration of [processAndSplitAudio] builds for the
    frames [so, eo) of the decoded buffer: every channel cut to them. *)
Definition chunkBufferOf (decoded : AudioBuffer) (so eo : nat) : AudioBuffer :=
  {| sampleRate := sampleRate decoded;
     frames := eo - so;
     channelData :=
       map (fun data => take (eo - so) (drop so data)) (channelData decoded) |}.

(* ===================================================================== *)
(** ** Auxiliary definitions of the proofs *)
(* ===================================================================== *)

Definition eighth : number := S754_finite false 4503599627370496 (-55).
Definition sixtyfourth : number := S754_finite false 4503599627370496 (-58).

Definition stereo2 : AudioBuffer :=
  {| sampleRate := 8000; frames := 2;
     channelData := [[of_Z 1; half]; [of_Z (-1); S754_zero true]] |}.

Definition sample_file : File :=
  {| file_name := "nota.ogg";
     file_blob := {| blob_bytes := [1; 2; 3; 4; 5; 6; 7];
                     blob_type := "audio/ogg" |} |}.

(** Modelled from the spec: "clamp to [-1.0, 1.0]": 1 for a sample of 1
    or above, -1 for a sample of -1 or below, the sample itself otherwise
    (NaN is neither above nor below, and stays). *)
Definition spec_clamp (s : number) : number :=
  if leb (of_Z 1) s then of_Z 1
  else if leb s (of_Z (-1)) then of_Z (-1)
  else s.

(** Neither NaN nor an infinity. *)
Definition isFinite (x : number) : bool :=
  match x with
  | S754_finite _ _ _ | S754_zero _ => true
  | _ => false
  end.

(** The values that [clampedSample] can take. *)
Inductive clamped_case (c : number) : Prop :=
| clamped_nan : c = S754_nan -> clamped_case c
| clamped_zero sg : c = S754_zero sg -> clamped_case c
| clamped_one : c = of_Z 1 -> clamped_case c
| clamped_minus_one : c = of_Z (-1) -> clamped_case c
| clamped_inside sg m e :
    c = S754_finite sg m e -> e <= -52 -> Zpos m < 2 ^ (- e) ->
    clamped_case c.

(** What the loop of [splitAudioFile] adds from [start] on: slices that
    make up the rest of the file, none empty, none longer than the chunk
    size, all but the last of exactly that size, all of the file's type. *)
Definition split_post (file : Blob) (chunkSizeInBytes : Z)
    (start : Z) (rest : list Blob) : Prop :=
  concat (map blob_bytes rest) = drop (Z.to_nat start) (blob_bytes file)
  /\ (forall i c, rest !! i = Some c ->
        0 < size c <= chunkSizeInBytes
        /\ blob_type c = blob_type file
        /\ ((S i < length rest)%nat -> size c = chunkSizeInBytes))
  /\ (size file <= start -> rest = []).

(** The number is NaN, or its sign bit is [s] (zeros and infinities have a
    sign too). *)
Definition sign_or_nan (s : bool) (x : number) : Prop :=
  match x with
  | S754_nan => True
  | S754_zero s' | S754_infinity s' | S754_finite s' _ _ => s' = s
  end.

(** Two buffers of the same sample rate, length and channel count. *)
Definition same_shape (b0 b : AudioBuffer) : Prop :=
  sampleRate b = sampleRate b0 /\ frames b = frames b0
  /\ numberOfChannels b = numberOfChannels b0.

(** Reading a decimal number back, leading zeros allowed. *)
Definition parseNumber (str : string) : option nat :=
  Nat.of_uint <$> NilEmpty.uint_of_string str.

(* ===================================================================== *)
(** ** The application: the file queue and the archive name *)
(* ===================================================================== *)

(** [handleFilesAdd]: the update it hands to [setSelectedFiles]. *)
Definition handleFilesAdd (prevFiles newFiles : list File) : list File :=
  let existingFileNames : gset string :=
    list_to_set (file_name <$> prevFiles) in
  let uniqueNewFiles :=
    filter (fun f => file_name f ∉ existingFileNames) newFiles in
  prevFiles ++ uniqueNewFiles.

(** [name.split('.')[0]]: what stands before the first dot. *)
Fixpoint beforeFirstDot (str : string) : string :=
  match str with
  | EmptyString => EmptyString
  | String c rest =>
      if Ascii.eqb c "." then EmptyString else String c (beforeFirstDot rest)
  end.

(** The name that [handleDownloadAllChunks] gives to the archive:
    [`${splitterFile?.name.split('.')[0] || 'trozos'}.zip`]. *)
Definition zipName (splitterFile : option File) : string :=
  or_else (from_option (fun f => beforeFirstDot (file_name f)) EmptyString
                       splitterFile)
          "trozos"
  +:+ ".zip".

(* ===================================================================== *)
(** ** The application: transcribing the queue *)
(* ===================================================================== *)

Inductive TranscriptionStatus : Type := IDLE | PROCESSING | SUCCESS | ERROR.

(** The state of the transcriber that [handleTranscription] sets. *)
Record TranscriberState : Type := {
  status : TranscriptionStatus;
  transcription : string;
  error : option string;
  processingMessage : option string;
}.

(** What [transcribeAudio] answers: it resolves with a text or is rejected
    with an [Error] that carries a message. *)
Inductive answer : Type :=
| Text (result : string)
| Failure (message : string).

(** What the handler does besides setting the state, in order. *)
Inductive event : Type :=
| SetProcessingMessage (message : string)
| TranscribeAudio (file : File)
| Delay (ms : Z).

(** [Array.prototype.join]. *)
Fixpoint join (sep : string) (l : list string) : string :=
  match l with
  | [] => EmptyString
  | s :: rest =>
      match rest with
      | [] => s
      | _ :: _ => s +:+ sep +:+ join sep rest
      end
  end.

(** The separator of the transcriptions: two newlines, three dashes, two
    newlines. *)
Definition separator : string :=
  String "010" (String "010" ("---" +:+ String "010" (String "010" ""))).

Definition sentFiles (events : list event) : list File :=
  omap (fun e => match e with TranscribeAudio f => Some f | _ => None end)
       events.

Definition delays (events : list event) : list Z :=
  omap (fun e => match e with Delay ms => Some ms | _ => None end) events.

Section Transcription.
(** [transcribeAudio] calls the network: here it is whatever the call
  number [i] answers for its file. *)
Variable transcribeAudio : nat -> File -> answer.

(** [for (let i = 0; i < totalFiles; i++)] over [selectedFiles[i]]:
  [files] are the files from index [i] on. *)
Fixpoint transcriptionLoop (totalFiles : nat) (i : nat) (files : list File)
  (allFileTranscriptions : list string) (events : list event)
: (list string + string) * list event :=
match files with
| [] => (inl allFileTranscriptions, events)
| file :: rest =>
    let events :=
      events
      ++ [SetProcessingMessage
            ("Transcribiendo archivo " +:+ String_of (i + 1) +:+ "/"
             +:+ String_of totalFiles +:+ ": " +:+ file_name file);
          TranscribeAudio file] in
    match transcribeAudio i file with
    | Failure message => (inr message, events)
    | Text result =>
        let allFileTranscriptions :=
          match result with
          | EmptyString => allFileTranscriptions
          | _ => allFileTranscriptions ++ [result]
          end in
        let events :=
          if (i <? totalFiles - 1)%nat then events ++ [Delay 1000]
          else events in
        transcriptionLoop totalFiles (S i) rest allFileTranscriptions
                          events
    end
end.

(** [handleTranscription]: the state when the handler has ended, and what
  it did. *)
Definition handleTranscription (selectedFiles : list File)
  (before : TranscriberState) : TranscriberState * list event :=
if (length selectedFiles =? 0)%nat then (before, [])
else
  match transcriptionLoop (length selectedFiles) 0 selectedFiles [] [] with
  | (inl allFileTranscriptions, events) =>
      ({| status := SUCCESS;
          transcription := join separator allFileTranscriptions;
          error := None;
          processingMessage := None |}, events)
  | (inr message, events) =>
      ({| status := ERROR;
          transcription := EmptyString;
          error :=
            Some (or_else message
                    "Ocurrió un error inesperado durante la transcripción.");
          processingMessage := None |}, events)
  end.
End Transcription.

(* ===================================================================== *)
(** ** The encoder writes the header and the PCM data *)
(* ===================================================================== *)

Section DataView.
Implicit Types (h t view : list Z) (offset : nat) (v : Z).

Lemma setUint8_app h t offset v :
  (offset + 1 <= length h)%nat ->
  setUint8 (h ++ t) offset v = Ok (<[offset := v mod 256]> h ++ t).
Proof.
  intros Hin. unfold setUint8.
  rewrite length_app.
  destruct (Nat.leb_spec (offset + 1) (length h + length t)); [|lia].
  by rewrite insert_app_l by lia.
Qed.

Lemma setUint16_app h t offset v :
  (offset + 2 <= length h)%nat ->
  setUint16 (h ++ t) offset v
  = Ok (<[S offset := v mod 2 ^ 16 / 256]>
          (<[offset := v mod 2 ^ 16 mod 256]> h) ++ t).
Proof.
  intros Hin. unfold setUint16.
  rewrite length_app.
  destruct (Nat.leb_spec (offset + 2) (length h + length t)); [|lia].
  cbv zeta.
  rewrite (insert_app_l h) by lia.
  by rewrite insert_app_l by (rewrite length_insert; lia).
Qed.

Lemma setUint32_app h t offset v :
  (offset + 4 <= length h)%nat ->
  setUint32 (h ++ t) offset v
  = Ok (<[S (S (S offset)) := v mod 2 ^ 32 / 2 ^ 24]>
        (<[S (S offset) := (v mod 2 ^ 32 / 2 ^ 16) mod 256]>
         (<[S offset := (v mod 2 ^ 32 / 256) mod 256]>
          (<[offset := v mod 2 ^ 32 mod 256]> h))) ++ t).
Proof.
  intros Hin. unfold setUint32.
  rewrite length_app.
  destruct (Nat.leb_spec (offset + 4) (length h + length t)); [|lia].
  cbv zeta.
  rewrite (insert_app_l h) by lia.
  rewrite (insert_app_l (<[_:=_]> h)) by (rewrite length_insert; lia).
  rewrite (insert_app_l (<[_:=_]> (<[_:=_]> h)))
    by (rewrite !length_insert; lia).
  by rewrite insert_app_l by (rewrite !length_insert; lia).
Qed.

(** Two bytes written just behind [h], over zeros or anything else. *)
Lemma setUint16_next h a b t v :
  setUint16 (h ++ a :: b :: t) (length h) v = Ok ((h ++ bytes16 v) ++ t).
Proof.
  unfold setUint16. rewrite length_app. simpl length.
  destruct (Nat.leb_spec (length h + 2) (length h + S (S (length t)))); [|lia].
  cbv zeta. f_equal.
  rewrite (insert_app_r_alt _ _ (length h)) by lia.
  rewrite Nat.sub_diag. simpl.
  rewrite (insert_app_r_alt _ _ (S (length h))) by lia.
  replace (S (length h) - length h)%nat with 1%nat by lia. simpl.
  by rewrite <- app_assoc.
Qed.
End DataView.

Section Encoder.
Variable buffer : AudioBuffer.

Lemma length_bytes16 v : length (bytes16 v) = 2%nat.
Proof. reflexivity. Qed.

Lemma length_frameBytes_from c n i :
  length (flat_map (fun channel => bytes16 (pcmSample buffer i channel)) (seq c n))
  = (2 * n)%nat.
Proof.
  revert c. induction n as [|n IH]; intros c; [done|].
  cbn [seq flat_map]. rewrite length_app, IH, length_bytes16. lia.
Qed.

Lemma length_frameBytes i :
  length (frameBytes buffer i) = (2 * numberOfChannels buffer)%nat.
Proof. apply length_frameBytes_from. Qed.

Lemma length_pcm_from i n :
  length (flat_map (frameBytes buffer) (seq i n))
  = (n * numberOfChannels buffer * 2)%nat.
Proof.
  revert i. induction n as [|n IH]; intros i; [done|].
  cbn [seq flat_map]. rewrite length_app, IH, length_frameBytes. lia.
Qed.

Lemma length_pcmBytes : length (pcmBytes buffer) = dataSizeOf buffer.
Proof. apply length_pcm_from. Qed.

Lemma writeSample_next i c h a b t :
  writeSample buffer i c (h ++ a :: b :: t, length h)
  = Ok ((h ++ bytes16 (pcmSample buffer i c)) ++ t, (length h + 2)%nat).
Proof.
  unfold writeSample, setInt16. by rewrite setUint16_next.
Qed.

(** The inner loop: the channels [c, c + n) of frame [i] go behind the
    bytes written so far. *)
Lemma writeSample_loop i n : forall c h rest,
  for_from c n (writeSample buffer i)
           (h ++ replicate (2 * n) 0 ++ rest, length h)
  = Ok (h ++ flat_map (fun channel => bytes16 (pcmSample buffer i channel))
                      (seq c n) ++ rest,
        (length h + 2 * n)%nat).
Proof.
  induction n as [|n IH]; intros c h rest.
  - simpl. by rewrite Nat.add_0_r.
  - replace (2 * S n)%nat with (S (S (2 * n))) by lia.
    cbn [for_from replicate app].
    rewrite writeSample_next. cbn [mbind result_bind].
    replace (length h + 2)%nat with (length (h ++ bytes16 (pcmSample buffer i c)))
      by (rewrite length_app, length_bytes16; lia).
    rewrite IH. f_equal. f_equal.
    + cbn [seq flat_map]. by rewrite <- !app_assoc.
    + rewrite length_app, length_bytes16. lia.
Qed.

(** The outer loop over the frames [i, i + n). *)
Lemma writeFrames_loop n : forall i h rest,
  for_from i n
    (fun i => for_ (numberOfChannels buffer) (writeSample buffer i))
    (h ++ replicate (n * numberOfChannels buffer * 2) 0 ++ rest, length h)
  = Ok (h ++ flat_map (frameBytes buffer) (seq i n) ++ rest,
        (length h + n * numberOfChannels buffer * 2)%nat).
Proof.
  unfold for_. induction n as [|n IH]; intros i h rest.
  - simpl. by rewrite Nat.add_0_r.
  - cbn [for_from].
    replace (S n * numberOfChannels buffer * 2)%nat
      with (2 * numberOfChannels buffer + n * numberOfChannels buffer * 2)%nat
      by lia.
    rewrite replicate_add, <- (app_assoc (replicate _ _)).
    rewrite writeSample_loop. cbn [mbind result_bind].
    fold (frameBytes buffer i).
    replace (length h + 2 * numberOfChannels buffer)%nat
      with (length (h ++ frameBytes buffer i))
      by (rewrite length_app, length_frameBytes; lia).
    rewrite (app_assoc h).
    rewrite IH. f_equal. f_equal.
    + cbn [seq flat_map]. by rewrite <- !app_assoc.
    + rewrite length_app, length_frameBytes. lia.
Qed.

Lemma length_headerBytes : length (headerBytes buffer) = 44%nat.
Proof. reflexivity. Qed.

Local Arguments setUint8 : simpl never.
Local Arguments setUint16 : simpl never.
Local Arguments setUint32 : simpl never.

(** The encoder never fails, and its blob is the header followed by the
    PCM data. *)
Lemma audioBufferToWav_wavBlob : audioBufferToWav buffer = Ok (wavBlob buffer).
Proof.
  unfold audioBufferToWav, new_ArrayBuffer. cbv zeta.
  replace (16 / 8)%nat with 2%nat by reflexivity.
  rewrite replicate_add.
  unfold writeString, for_.
  cbn [for_from String.length replicate].
  repeat (first [ rewrite setUint8_app by (cbn [length Nat.add]; lia)
                | rewrite setUint16_app by (cbn [length Nat.add]; lia)
                | rewrite setUint32_app by (cbn [length Nat.add]; lia) ];
          cbn [mbind result_bind insert list_insert Nat.add]).
  rewrite <- (app_nil_r (replicate _ 0)).
  lazymatch goal with
  | |- context [for_from 0 _ _ (?H ++ _, 44%nat)] =>
      change 44%nat with (length H)
  end.
  rewrite writeFrames_loop.
  cbn [mbind result_bind mret result_ret fst].
  rewrite app_nil_r.
  reflexivity.
Qed.
End Encoder.

Section Fields.
Lemma le_combine_bytes16 v : le_combine (bytes16 v) = v mod 2 ^ 16.
Proof.
  unfold bytes16. cbn [le_combine].
  pose proof (Z.div_mod (v mod 2 ^ 16) 256). lia.
Qed.

Lemma le_combine_bytes32 v : le_combine (bytes32 v) = v mod 2 ^ 32.
Proof.
  unfold bytes32. cbn [le_combine].
  set (u := v mod 2 ^ 32).
  assert (0 <= u < 2 ^ 32) by (apply Z.mod_pos_bound; lia).
  change (2 ^ 16) with (256 * 256). change (2 ^ 24) with (256 * 256 * 256).
  rewrite <- !Z.div_div by lia.
  pose proof (Z.div_mod u 256).
  pose proof (Z.div_mod (u / 256) 256).
  pose proof (Z.div_mod (u / 256 / 256) 256).
  lia.
Qed.

Lemma ToInt16_range x : - 2 ^ 15 <= ToInt16 x < 2 ^ 15.
Proof.
  unfold ToInt16, ToUint16. cbv zeta.
  pose proof (Z.mod_pos_bound (truncZ x) (2 ^ 16)).
  destruct (Z.leb_spec (2 ^ 15) (truncZ x mod 2 ^ 16)); lia.
Qed.

Lemma int16_of_bytes16 v : - 2 ^ 15 <= v < 2 ^ 15 -> int16_of (bytes16 v) = v.
Proof.
  intros Hv. unfold int16_of. rewrite le_combine_bytes16. cbv zeta.
  destruct (Z.leb_spec (2 ^ 15) (v mod 2 ^ 16)) as [H|H].
  - assert (v < 0) by (destruct (Z.lt_ge_cases v 0); [done|]; rewrite Z.mod_small in H; lia).
    replace v with (v + 2 ^ 16 - 1 * 2 ^ 16) at 1 by lia.
    rewrite Zminus_mod, Z_mod_mult, Z.sub_0_r, Z.mod_mod by lia.
    rewrite Z.mod_small; lia.
  - assert (0 <= v).
    { destruct (Z.lt_ge_cases v 0); [|lia].
      replace v with (v + 2 ^ 16 - 1 * 2 ^ 16) in H by lia.
      rewrite Zminus_mod, Z_mod_mult, Z.sub_0_r, Z.mod_mod in H by lia.
      rewrite Z.mod_small in H; lia. }
    rewrite Z.mod_small; lia.
Qed.

(** Blocks of equal length: dropping [i] blocks of a [flat_map]. *)
Lemma drop_flat_map_blocks (f : nat -> list Z) (k : nat) :
  (forall x, length (f x) = k) ->
  forall n s i, (i <= n)%nat ->
    drop (i * k) (flat_map f (seq s n)) = flat_map f (seq (s + i) (n - i)).
Proof.
  intros Hk. induction n as [|n IH]; intros s i Hi.
  - replace i with 0%nat by lia. done.
  - destruct i as [|i].
    + by rewrite Nat.add_0_r.
    + cbn [seq flat_map].
      replace (S i * k)%nat with (length (f s) + i * k)%nat by (rewrite Hk; lia).
      rewrite drop_app_add. rewrite IH by lia.
      by replace (S s + i)%nat with (s + S i)%nat by lia.
Qed.

Lemma field_flat_map_blocks (f : nat -> list Z) (k : nat) :
  (forall x, length (f x) = k) ->
  forall n i, (i < n)%nat ->
    field (flat_map f (seq 0 n)) (i * k) k = f i.
Proof.
  intros Hk n i Hi. unfold field.
  rewrite (drop_flat_map_blocks f k Hk) by lia.
  replace (n - i)%nat with (S (n - S i)) by lia.
  cbn [seq flat_map].
  rewrite take_app_length' by (by rewrite Hk). done.
Qed.
End Fields.

Section Layout.
Variable buffer : AudioBuffer.

Lemma field_pcmBytes i c :
  (i < frames buffer)%nat -> (c < numberOfChannels buffer)%nat ->
  field (pcmBytes buffer) (2 * (i * numberOfChannels buffer + c)) 2
  = bytes16 (pcmSample buffer i c).
Proof.
  intros Hi Hc. unfold field, pcmBytes.
  replace (2 * (i * numberOfChannels buffer + c))%nat
    with (i * (2 * numberOfChannels buffer) + c * 2)%nat by lia.
  rewrite <- drop_drop.
  rewrite (drop_flat_map_blocks _ _ (length_frameBytes buffer)) by lia.
  replace (frames buffer - i)%nat with (S (frames buffer - S i)) by lia.
  cbn [seq flat_map Nat.add].
  rewrite drop_app_le by (rewrite length_frameBytes; lia).
  unfold frameBytes at 1.
  rewrite (drop_flat_map_blocks _ 2) by (done || lia).
  replace (numberOfChannels buffer - c)%nat
    with (S (numberOfChannels buffer - S c)) by lia.
  cbn [seq flat_map Nat.add].
  rewrite <- !app_assoc.
  by rewrite take_app_length' by done.
Qed.

Lemma field_wav_pcm k n :
  field (headerBytes buffer ++ pcmBytes buffer) (44 + k) n
  = field (pcmBytes buffer) k n.
Proof.
  unfold field.
  change 44%nat with (length (headerBytes buffer)).
  by rewrite drop_app_add.
Qed.

Lemma field_wav_header k n :
  (k + n <= 44)%nat ->
  field (headerBytes buffer ++ pcmBytes buffer) k n
  = field (headerBytes buffer) k n.
Proof.
  intros Hk. unfold field.
  rewrite drop_app_le by (rewrite length_headerBytes; lia).
  rewrite take_app_le; [done|].
  rewrite length_drop, length_headerBytes. lia.
Qed.
End Layout.

Lemma pcmBytes_silence rate n :
  pcmBytes (mono rate (silence n)) = replicate (2 * n) 0.
Proof.
  unfold pcmBytes, mono, silence. cbn [frames].
  rewrite length_replicate.
  assert (forall k s, (s + k <= n)%nat ->
    flat_map (frameBytes {| sampleRate := rate; frames := n;
                            channelData := [replicate n (of_Z 0)] |})
             (seq s k) = replicate (2 * k) 0) as H.
  { induction k as [|k IH]; intros s Hs; [done|].
    cbn [seq flat_map]. rewrite IH by lia.
    replace (2 * S k)%nat with (2 + 2 * k)%nat by lia.
    rewrite replicate_add. f_equal.
    unfold frameBytes, numberOfChannels, pcmSample, getChannelData, sampleAt.
    cbn [channelData length seq flat_map nth].
    rewrite app_nil_r.
    rewrite nth_lookup, lookup_replicate_2 by lia.
    reflexivity. }
  rewrite <- (H n 0%nat) by lia.
  f_equal.
Qed.

(* ===================================================================== *)
(** ** Rounding of a binary64 product *)
(* ===================================================================== *)

Section Rounding.
(** The number of binary digits of a positive integer. *)
Lemma digits2_pos_bounds (m : positive) :
  2 ^ (Zpos (digits2_pos m) - 1) <= Zpos m < 2 ^ Zpos (digits2_pos m).
Proof.
  induction m as [p IH|p IH|]; cbn [digits2_pos].
  - rewrite Pos2Z.inj_succ.
    replace (Z.succ (Zpos (digits2_pos p)) - 1) with (Z.succ (Zpos (digits2_pos p) - 1)) by lia.
    rewrite !Z.pow_succ_r by lia. lia.
  - rewrite Pos2Z.inj_succ.
    replace (Z.succ (Zpos (digits2_pos p)) - 1) with (Z.succ (Zpos (digits2_pos p) - 1)) by lia.
    rewrite !Z.pow_succ_r by lia. lia.
  - simpl. lia.
Qed.

Lemma shr_1_m r : 0 <= shr_m r -> shr_m (shr_1 r) = shr_m r / 2.
Proof.
  destruct r as [m rb sb]. cbn [shr_m]. intros Hm.
  destruct m as [|p|p]; [done| |lia].
  destruct p as [p|p|]; cbn [shr_1 shr_m].
  - rewrite Pos2Z.inj_xI. apply (Z.div_unique_pos _ 2 _ 1); lia.
  - rewrite Pos2Z.inj_xO. apply (Z.div_unique_pos _ 2 _ 0); lia.
  - done.
Qed.

Lemma iter_pos_shr_1_m p : forall r,
  0 <= shr_m r -> shr_m (SpecFloat.iter_pos shr_1 p r) = shr_m r / 2 ^ Zpos p.
Proof.
  assert (Hdiv : forall a b, 0 <= a -> 0 < b -> 0 <= a / b)
    by (intros; apply Z.div_pos; lia).
  induction p as [p IH|p IH|]; intros r Hr; cbn [SpecFloat.iter_pos].
  - rewrite IH.
    2:{ rewrite IH; [|rewrite shr_1_m by done; apply Hdiv; lia].
        apply Hdiv; [rewrite shr_1_m by done; apply Hdiv; lia|lia]. }
    rewrite IH by (rewrite shr_1_m by done; apply Hdiv; lia).
    rewrite shr_1_m by done.
    rewrite !Z.div_div by lia.
    f_equal. change 2 with (2 ^ 1) at 1.
    rewrite <- !Z.pow_add_r by lia. f_equal. lia.
  - rewrite IH by (rewrite IH by done; apply Hdiv; lia).
    rewrite IH by done.
    rewrite !Z.div_div by lia.
    f_equal. rewrite <- Z.pow_add_r by lia. f_equal. lia.
  - by apply shr_1_m.
Qed.

(** A shift keeps the significand non-negative, moves the exponent up by
    [n >= 0] and divides the significand by [2^n]. *)
Lemma shr_spec r e k :
  0 <= shr_m r ->
  exists n, 0 <= n /\ snd (shr r e k) = e + n
            /\ shr_m (fst (shr r e k)) = shr_m r / 2 ^ n
            /\ (n = 0 \/ n = k).
Proof.
  intros Hr. destruct k as [|p|p]; cbn [shr fst snd].
  - exists 0. rewrite Z.div_1_r. lia.
  - exists (Zpos p). rewrite iter_pos_shr_1_m by done. lia.
  - exists 0. rewrite Z.div_1_r. lia.
Qed.

Lemma round_nearest_even_bounds m l :
  m <= round_nearest_even m l <= m + 1.
Proof.
  destruct l as [|[]]; cbn [round_nearest_even]; try lia.
  destruct (Z.even m); lia.
Qed.

Lemma shr_m_record_of_loc m l : shr_m (shr_record_of_loc m l) = m.
Proof. by destruct l as [|[]]. Qed.
End Rounding.

Section Product.
Lemma scale_trunc_opp s v e :
  scale_trunc (cond_Zopp s v) e = cond_Zopp s (scale_trunc v e).
Proof.
  destruct s; [|done]. unfold scale_trunc. cbn [cond_Zopp].
  destruct (Z.leb_spec 0 e); [by rewrite Z.mul_opp_l|].
  rewrite Z.quot_opp_l; [done|]. apply Z.pow_nonzero; lia.
Qed.

(** A rounded product that lies strictly below the integer [T] in
    magnitude has an integer part of at most [T]. *)
Lemma binary_round_aux_trunc sx (M : positive) E T :
  0 < T -> E <= 0 ->
  Zpos M < T * 2 ^ (- E) ->
  fexp prec emax (Zpos (digits2_pos M) + E) <= 0 ->
  exists n, 0 <= n <= T
    /\ truncZ (binary_round_aux prec emax sx (Zpos M) E loc_Exact)
       = cond_Zopp sx n.
Proof.
  intros HT HE HM Hfexp.
  assert (Hzero : exists n, 0 <= n <= T /\ 0 = cond_Zopp sx n)
    by (exists 0; destruct sx; cbn; lia).
  unfold binary_round_aux, shr_fexp. cbn [Zdigits2].
  set (k1 := fexp prec emax (Zpos (digits2_pos M) + E) - E).
  destruct (shr_spec (shr_record_of_loc (Zpos M) loc_Exact) E k1)
    as (n1 & Hn1 & He1 & Hm1 & Hk1); [cbn; lia|].
  destruct (shr (shr_record_of_loc (Zpos M) loc_Exact) E k1) as [mrs1 e1].
  cbn [fst snd] in He1, Hm1. cbn [shr_record_of_loc shr_m] in Hm1.
  set (m1 := round_nearest_even (shr_m mrs1) (loc_of_shr_record mrs1)).
  pose proof (round_nearest_even_bounds (shr_m mrs1) (loc_of_shr_record mrs1))
    as Hround. fold m1 in Hround.
  assert (He1' : e1 <= 0) by (subst k1; lia).
  assert (Hpow1 : 0 < 2 ^ n1) by (apply Z.pow_pos_nonneg; lia).
  assert (Hm1' : 0 <= shr_m mrs1) by (rewrite Hm1; apply Z.div_pos; lia).
  assert (Hm1T : m1 <= T * 2 ^ (- e1)).
  { assert (shr_m mrs1 < T * 2 ^ (- e1)); [|lia].
    rewrite Hm1. apply Z.div_lt_upper_bound; [done|].
    replace (- E) with (n1 + - e1) in HM by lia.
    rewrite Z.pow_add_r in HM by lia. lia. }
  set (k2 := fexp prec emax (Zdigits2 m1 + e1) - e1).
  destruct (shr_spec (shr_record_of_loc m1 loc_Exact) e1 k2)
    as (n2 & Hn2 & He2 & Hm2 & _); [cbn; lia|].
  destruct (shr (shr_record_of_loc m1 loc_Exact) e1 k2) as [mrs2 e2].
  cbn [fst snd] in He2, Hm2. cbn [shr_record_of_loc shr_m] in Hm2.
  assert (Hpow2 : 0 < 2 ^ n2) by (apply Z.pow_pos_nonneg; lia).
  assert (Hm2le : shr_m mrs2 * 2 ^ n2 <= m1).
  { rewrite Hm2. pose proof (Z.mul_div_le m1 (2 ^ n2)). lia. }
  destruct (shr_m mrs2) as [|m|m] eqn:Hshr; [done| |done].
  destruct (e2 <=? emax - prec); [|done].
  cbn [truncZ]. unfold signed. rewrite scale_trunc_opp.
  exists (scale_trunc (Zpos m) e2). split; [|done].
  unfold scale_trunc. destruct (Z.leb_spec 0 e2) as [Hpos|Hneg].
  - assert (0 < 2 ^ e2) by (apply Z.pow_pos_nonneg; lia).
    assert (0 < 2 ^ (- e1)) by (apply Z.pow_pos_nonneg; lia).
    split; [lia|].
    apply (Z.mul_le_mono_pos_r _ _ (2 ^ (- e1))); [done|].
    rewrite <- Z.mul_assoc, <- Z.pow_add_r by lia.
    replace (e2 + - e1) with n2 by lia. lia.
  - assert (0 < 2 ^ (- e2)) by (apply Z.pow_pos_nonneg; lia).
    rewrite Z.quot_div_nonneg by lia.
    split; [apply Z.div_pos; lia|].
    apply Z.div_le_upper_bound; [done|].
    apply (Z.mul_le_mono_pos_r _ _ (2 ^ n2)); [done|].
    rewrite (Z.mul_comm (2 ^ (- e2))), <- Z.mul_assoc, <- Z.pow_add_r by lia.
    replace (- e2 + n2) with (- e1) by lia. lia.
Qed.
End Product.

(* ===================================================================== *)
(** ** Quantization of a sample *)
(* ===================================================================== *)

Section Quantization.
Lemma compare_cont_Eq p q : Pos.compare_cont Eq p q = Pos.compare p q.
Proof. reflexivity. Qed.

Lemma of_Z_1 : of_Z 1 = S754_finite false 4503599627370496 (-52).
Proof. reflexivity. Qed.
Lemma of_Z_m1 : of_Z (-1) = S754_finite true 4503599627370496 (-52).
Proof. reflexivity. Qed.
Lemma of_Z_0 : of_Z 0 = S754_zero false.
Proof. reflexivity. Qed.
Lemma of_Z_32767 : of_Z 32767 = S754_finite false 9006924376834048 (-38).
Proof. reflexivity. Qed.
Lemma of_Z_32768 : of_Z 32768 = S754_finite false 4503599627370496 (-37).
Proof. reflexivity. Qed.

(** The significand of a binary64 value has at most 53 digits. *)
Lemma is_number_finite s m e :
  is_number (S754_finite s m e) = true -> Zpos m < 2 ^ 53.
Proof.
  unfold is_number, valid_binary, bounded, canonical_mantissa, fexp.
  intros H. apply andb_prop in H as [H _]. apply Z.eqb_eq in H.
  pose proof (digits2_pos_bounds m) as [_ Hm].
  eapply Z.lt_le_trans; [exact Hm|].
  apply Z.pow_le_mono_r; unfold prec in *; lia.
Qed.

(** The product of a value below one in magnitude and the integer
    [T = my * 2^ey]. *)
Lemma mul_trunc_bound sg m e (my : positive) ey T :
  0 < T -> ey <= 0 -> e <= 0 ->
  Zpos m < 2 ^ (- e) ->
  Zpos my = T * 2 ^ (- ey) -> Zpos my < 2 ^ 53 ->
  exists n, 0 <= n <= T
    /\ truncZ (mul (S754_finite sg m e) (S754_finite false my ey))
       = cond_Zopp sg n.
Proof.
  intros HT Hey He Hm Hmy Hmy53.
  unfold mul, SFmul. rewrite xorb_false_r.
  assert (0 < 2 ^ (- e)) by (apply Z.pow_pos_nonneg; lia).
  assert (0 < 2 ^ (- ey)) by (apply Z.pow_pos_nonneg; lia).
  apply binary_round_aux_trunc; [done|lia| |].
  - rewrite Pos2Z.inj_mul, Hmy.
    replace (- (e + ey)) with (- e + - ey) by lia.
    rewrite Z.pow_add_r by lia. nia.
  - pose proof (digits2_pos_bounds (m * my)) as [Hd _].
    rewrite Pos2Z.inj_mul in Hd.
    assert (Hlt : 2 ^ (Zpos (digits2_pos (m * my)) - 1) < 2 ^ (- e + 53)).
    { rewrite (Z.pow_add_r _ (- e)) by lia. nia. }
    apply Z.pow_lt_mono_r_iff in Hlt; [|lia|lia].
    unfold fexp, emin, prec, emax. lia.
Qed.


Lemma clampedSample_cases s :
  is_number s = true -> clamped_case (clampedSample s).
Proof.
  intros Hs. unfold clampedSample. rewrite of_Z_1, of_Z_m1.
  destruct s as [sg|sg| |sg m e].
  - apply (clamped_zero _ sg). destruct sg; reflexivity.
  - destruct sg; [apply clamped_minus_one|apply clamped_one]; reflexivity.
  - apply clamped_nan; reflexivity.
  - pose proof (is_number_finite _ _ _ Hs) as Hm.
    destruct sg; unfold Math_min; cbn [SFcompare].
    + (* negative *)
      unfold Math_max; cbn [SFcompare].
      destruct (Z.compare_spec (-52) e) as [He|He|He]; cbv beta iota delta [CompOpp].
      * subst e.
        rewrite compare_cont_Eq.
        destruct (Pos.compare_spec 4503599627370496 m) as [Hc|Hc|Hc];
          cbv beta iota delta [CompOpp];
          [apply clamped_minus_one; reflexivity..|].
        apply Pos2Z.pos_lt_pos in Hc.
        apply (clamped_inside _ true m (-52)); [reflexivity|lia|].
        change (2 ^ (- -52)) with 4503599627370496. lia.
      * apply clamped_minus_one; reflexivity.
      * apply (clamped_inside _ true m e); [reflexivity|lia|].
        eapply Z.lt_le_trans; [exact Hm|]. apply Z.pow_le_mono_r; lia.
    + (* positive *)
      destruct (Z.compare_spec (-52) e) as [He|He|He].
      * subst e.
        rewrite compare_cont_Eq.
        destruct (Pos.compare_spec 4503599627370496 m) as [Hc|Hc|Hc];
          [apply clamped_one; reflexivity..|].
        apply Pos2Z.pos_lt_pos in Hc.
        unfold Math_max; cbn [SFcompare].
        apply (clamped_inside _ false m (-52)); [reflexivity|lia|].
        change (2 ^ (- -52)) with 4503599627370496. lia.
      * apply clamped_one; reflexivity.
      * unfold Math_max; cbn [SFcompare].
        apply (clamped_inside _ false m e); [reflexivity|lia|].
        eapply Z.lt_le_trans; [exact Hm|]. apply Z.pow_le_mono_r; lia.
Qed.

Lemma ToInt16_small x :
  - 2 ^ 15 <= truncZ x < 2 ^ 15 -> ToInt16 x = truncZ x.
Proof.
  intros Hx. unfold ToInt16, ToUint16. cbv zeta.
  set (t := truncZ x) in *.
  destruct (Z.lt_ge_cases t 0) as [Hneg|Hpos].
  - assert (Hmod : t mod 2 ^ 16 = t + 2 ^ 16).
    { symmetry. apply (Z.mod_unique _ _ (-1)); lia. }
    rewrite Hmod. destruct (Z.leb_spec (2 ^ 15) (t + 2 ^ 16)); lia.
  - rewrite Z.mod_small by lia.
    destruct (Z.leb_spec (2 ^ 15) t); lia.
Qed.

Lemma intSample_trunc_range s :
  is_number s = true -> - 32768 <= truncZ (intSample s) <= 32767.
Proof.
  intros Hs. unfold intSample. cbv zeta.
  destruct (clampedSample_cases s Hs) as [Hc|sg Hc|Hc|Hc|sg m e Hc He Hm];
    rewrite Hc.
  - by vm_compute.
  - destruct sg; by vm_compute.
  - by vm_compute.
  - by vm_compute.
  - rewrite of_Z_0, of_Z_32767, of_Z_32768.
    assert (0 < 2 ^ (- e)) by (apply Z.pow_pos_nonneg; lia).
    destruct sg; unfold ltb, SFltb; cbn [SFcompare].
    + destruct (mul_trunc_bound true m e 4503599627370496 (-37) 32768)
        as (n & Hn & ->); [lia|lia|lia|done|done|done|].
      cbn [cond_Zopp]. lia.
    + destruct (mul_trunc_bound false m e 9006924376834048 (-38) 32767)
        as (n & Hn & ->); [lia|lia|lia|done|done|done|].
      cbn [cond_Zopp]. lia.
Qed.

Lemma clampedSample_range s :
  is_number s = true ->
  clampedSample s = S754_nan
  \/ (leb (of_Z (-1)) (clampedSample s) = true
      /\ leb (clampedSample s) (of_Z 1) = true).
Proof.
  intros Hs.
  destruct (clampedSample_cases s Hs) as [Hc|sg Hc|Hc|Hc|sg m e Hc He Hm];
    rewrite Hc; [by left|right..].
  - by destruct sg.
  - done.
  - done.
  - rewrite of_Z_1, of_Z_m1. unfold leb, SFleb. cbn [SFcompare].
    destruct sg.
    + split; [|done].
      destruct (Z.compare_spec (-52) e) as [He'|He'|He']; [|lia|done].
      subst e. change (2 ^ (- -52)) with 4503599627370496 in Hm.
      rewrite compare_cont_Eq.
      destruct (Pos.compare_spec 4503599627370496 m) as [Hp|Hp|Hp];
        [subst m; lia|apply Pos2Z.pos_lt_pos in Hp; lia|reflexivity].
    + split; [done|].
      destruct (Z.compare_spec e (-52)) as [He'|He'|He']; [|done|lia].
      subst e. change (2 ^ (- -52)) with 4503599627370496 in Hm.
      rewrite compare_cont_Eq.
      destruct (Pos.compare_spec m 4503599627370496) as [Hp|Hp|Hp];
        [subst m; lia|reflexivity|apply Pos2Z.pos_lt_pos in Hp; lia].
Qed.
End Quantization.

(* ===================================================================== *)
(** ** The chunk loop *)
(* ===================================================================== *)

Section ChunkLoop.
Variable fileName : string.
Variable decodedBuffer : AudioBuffer.
Variable d : number.

Abbreviation tc := (totalChunks decodedBuffer d).
Abbreviation degen := (degenerate decodedBuffer d).

Lemma iteration_degenerate i chunks :
  degen i = true -> iteration fileName decodedBuffer d i chunks = Ok chunks.
Proof.
  unfold degenerate, iteration. intros H.
  destruct (leb (endTime decodedBuffer d i) (startTime d i)); [done|].
  cbn [orb] in H. by rewrite H.
Qed.

Lemma iteration_emits i chunks chunks' :
  degen i = false ->
  iteration fileName decodedBuffer d i chunks = Ok chunks' ->
  exists wav,
    chunks' = chunks ++ [{| name := chunkName fileName (i + 1); blob := wav |}].
Proof.
  unfold degenerate, iteration. intros H.
  apply orb_false_elim in H as [-> ->].
  destruct (createBuffer _ _ _) as [b0|]; cbn [mbind result_bind]; [|done].
  destruct (for_ _ _ _) as [b1|]; cbn [mbind result_bind]; [|done].
  destruct (audioBufferToWav b1) as [wav|]; cbn [mbind result_bind mret result_ret]; [|done].
  intros [= <-]. by exists wav.
Qed.

(** A run that resolves made [n] iterations: one message for each of
    them, one chunk for each that is not degenerate. *)
Lemma chunkLoop_resolved fuel : forall i log chunks log' chunks',
  chunkLoop fileName decodedBuffer d fuel i log chunks = Resolved log' chunks' ->
  exists n,
    log' = log ++ map (fun j => Procesando (j + 1) tc) (seq i n)
    /\ map name chunks'
       = map name chunks
         ++ map (fun j => chunkName fileName (j + 1))
                (filter (fun j => negb (degen j)) (seq i n))
    /\ (forall j, (i <= j < i + n)%nat -> ltb (of_Z (Z.of_nat j)) tc = true)
    /\ ltb (of_Z (Z.of_nat (i + n))) tc = false.
Proof.
  induction fuel as [|fuel IH]; intros i log chunks log' chunks'; [done|].
  cbn [chunkLoop].
  destruct (ltb (of_Z (Z.of_nat i)) tc) eqn:Hlt.
  - destruct (iteration _ _ _ i chunks) as [chunks1|] eqn:Hit; [|done].
    intros Hrun. apply IH in Hrun as (n & Hlog & Hnames & Hin & Hout).
    exists (S n). cbn [seq map]. split; [by rewrite Hlog, <- app_assoc|].
    split; [|split].
    + rewrite Hnames. rewrite filter_cons.
      destruct (degen i) eqn:Hdeg.
      * rewrite iteration_degenerate in Hit by done. injection Hit as <-.
        rewrite decide_False by (cbn; auto). done.
      * apply iteration_emits in Hit as [wav ->]; [|done].
        rewrite decide_True by done.
        rewrite map_app. cbn [map name]. by rewrite <- app_assoc.
    + intros j Hj. destruct (decide (j = i)) as [->|]; [done|].
      apply Hin. lia.
    + by replace (i + S n)%nat with (S i + n)%nat by lia.
  - intros [= <- <-]. exists 0%nat. cbn [seq map filter].
    rewrite !app_nil_r, Nat.add_0_r. repeat split; [|done]. intros; lia.
Qed.
End ChunkLoop.

Section Window.
Variable fileName : string.
Variable decodedBuffer : AudioBuffer.
Variable d : number.
Variable i : nat.
Variables so eo : nat.

Hypothesis Hwf : wf_buffer decodedBuffer.
Hypothesis Hso :
  relativeIndex (startOffset decodedBuffer d i) (frames decodedBuffer) = so.
Hypothesis Heo :
  relativeIndex (endOffset decodedBuffer d i) (frames decodedBuffer) = eo.
Hypothesis Heo_le : (eo <= frames decodedBuffer)%nat.

Let cut (data : list number) : list number := take (eo - so) (drop so data).
Let chans := channelData decodedBuffer.
Let blank : list number := replicate (eo - so) (of_Z 0).

Lemma copyChannel_step c pre rest data :
  chans !! c = Some data -> length pre = c ->
  copyChannel decodedBuffer d i c
    {| sampleRate := sampleRate decodedBuffer; frames := eo - so;
       channelData := pre ++ blank :: rest |}
  = Ok {| sampleRate := sampleRate decodedBuffer; frames := eo - so;
          channelData := pre ++ cut data :: rest |}.
Proof.
  intros Hdata Hpre.
  assert (Hlen : length data = frames decodedBuffer).
  { unfold wf_buffer in Hwf. rewrite Forall_forall in Hwf.
    apply Hwf. by eapply list_elem_of_lookup_2. }
  unfold copyChannel. cbv zeta.
  unfold getChannelData. cbn [channelData].
  fold chans. rewrite (nth_lookup_Some _ _ _ _ Hdata).
  rewrite nth_lookup, lookup_app_r by lia.
  rewrite Hpre, Nat.sub_diag. cbn [lookup list_lookup default].
  unfold subarray. rewrite Hlen, Hso, Heo. fold (cut data).
  assert (Hcut : length (cut data) = (eo - so)%nat).
  { unfold cut. rewrite length_take, length_drop. lia. }
  unfold typedArray_set, blank, id. rewrite length_replicate, Hcut.
  rewrite Nat.leb_refl. cbn [mbind result_bind mret result_ret].
  cbn [sampleRate frames channelData].
  rewrite drop_ge by (rewrite length_replicate; lia).
  rewrite app_nil_r.
  rewrite insert_app_r_alt by lia. rewrite Hpre, Nat.sub_diag.
  done.
Qed.

Lemma copyChannel_loop k : forall c,
  (c + k = length chans)%nat ->
  for_from c k (copyChannel decodedBuffer d i)
    {| sampleRate := sampleRate decodedBuffer; frames := eo - so;
       channelData := map cut (take c chans) ++ replicate k blank |}
  = Ok (chunkBufferOf decodedBuffer so eo).
Proof.
  induction k as [|k IH]; intros c Hc.
  - cbn [for_from replicate]. rewrite app_nil_r.
    rewrite take_ge by lia. done.
  - cbn [for_from replicate].
    assert (Hlook : is_Some (chans !! c)) by (apply lookup_lt_is_Some; lia).
    destruct Hlook as [data Hdata].
    rewrite (copyChannel_step c _ _ data Hdata)
      by (rewrite length_map, length_take; lia).
    cbn [mbind result_bind].
    rewrite <- (IH (S c)) by lia.
    f_equal. f_equal.
    rewrite (take_S_r _ _ _ Hdata), map_app. cbn [map].
    by rewrite <- app_assoc.
Qed.

Hypothesis Hchannels : (0 < numberOfChannels decodedBuffer)%nat.
Hypothesis Hnondeg : degenerate decodedBuffer d i = false.
Hypothesis Hcount :
  Z.to_nat (ToUint32 (frameCount decodedBuffer d i)) = (eo - so)%nat.
Hypothesis Hpos : (so < eo)%nat.

(** An iteration that is not skipped appends the WAV encoding of the
    frames [so, eo) of every channel. *)
Lemma iteration_window chunks :
  iteration fileName decodedBuffer d i chunks
  = Ok (chunks ++ [{| name := chunkName fileName (i + 1);
                      blob := wavBlob (chunkBufferOf decodedBuffer so eo) |}]).
Proof.
  unfold iteration. unfold degenerate in Hnondeg.
  apply orb_false_elim in Hnondeg as [-> ->].
  unfold createBuffer. cbv zeta. rewrite Hcount.
  destruct (Nat.eqb_spec (numberOfChannels decodedBuffer) 0); [lia|].
  destruct (Nat.eqb_spec (eo - so) 0); [lia|].
  cbn [orb mbind result_bind].
  unfold for_, numberOfChannels.
  pose proof (copyChannel_loop (length chans) 0%nat eq_refl) as Hloop.
  rewrite take_0 in Hloop. cbn [map app] in Hloop.
  unfold blank, chans in Hloop.
  rewrite Hloop. cbn [mbind result_bind].
  rewrite audioBufferToWav_wavBlob. done.
Qed.
End Window.

Lemma zero_duration_no_loop b d :
  SFeqb (duration b) (of_Z 0) = true ->
  ltb (of_Z (Z.of_nat 0)) (totalChunks b d) = false.
Proof.
  unfold totalChunks, totalDuration.
  destruct (duration b) as [s|s| |s m e]; try discriminate.
  - intros _. destruct s, d as [[]|[]| |[] ? ?]; reflexivity.
  - destruct s; discriminate.
  - destruct s; discriminate.
Qed.

(* ===================================================================== *)
(** ** File names and chunk numbers *)
(* ===================================================================== *)

Section FileNames.
Implicit Types (str stem ext : string) (c : ascii).

Lemma lastIndexOf_from_absent str c : forall i found,
  ~ In c (list_ascii_of_string str) ->
  lastIndexOf_from str c i found = found.
Proof.
  induction str as [|a rest IH]; intros i found Hnot; [done|].
  cbn [lastIndexOf_from]. cbn [list_ascii_of_string In] in Hnot.
  destruct (Ascii.eqb_spec a c) as [->|Hne]; [tauto|].
  apply IH. tauto.
Qed.

Lemma lastIndexOf_from_last stem ext c : forall i found,
  ~ In c (list_ascii_of_string ext) ->
  lastIndexOf_from (stem +:+ String c ext) c i found
  = i + Z.of_nat (String.length stem).
Proof.
  induction stem as [|a rest IH]; intros i found Hnot.
  - change (EmptyString +:+ String c ext) with (String c ext).
    cbn [lastIndexOf_from String.length].
    rewrite Ascii.eqb_refl, lastIndexOf_from_absent by done. lia.
  - change (String a rest +:+ String c ext)
      with (String a (rest +:+ String c ext)).
    cbn [lastIndexOf_from String.length].
    rewrite IH by done. lia.
Qed.

Lemma substring0_prefix stem rest :
  substring0 (stem +:+ rest) (Z.of_nat (String.length stem)) = stem.
Proof.
  unfold substring0. rewrite Nat2Z.id.
  induction stem as [|a stem IH].
  - change (EmptyString +:+ rest) with rest.
    cbn [String.length]. by destruct rest.
  - change (String a stem +:+ rest) with (String a (stem +:+ rest)).
    cbn [String.length String.substring]. by rewrite IH.
Qed.

(** The base name: what stands before the last dot, and the whole name
    when there is no dot or nothing before the last one. *)
Lemma originalFileName_stem stem ext :
  stem <> EmptyString ->
  ~ In "."%char (list_ascii_of_string ext) ->
  originalFileName (stem +:+ String "." ext) = stem.
Proof.
  intros Hstem Hext. unfold originalFileName, lastIndexOf.
  rewrite lastIndexOf_from_last by done. rewrite Z.add_0_l.
  rewrite substring0_prefix. by destruct stem.
Qed.

Lemma originalFileName_no_dot str :
  ~ In "."%char (list_ascii_of_string str) ->
  originalFileName str = str.
Proof.
  intros Hnot. unfold originalFileName, lastIndexOf.
  rewrite lastIndexOf_from_absent by done.
  unfold substring0. change (Z.to_nat (-1)) with 0%nat.
  by destruct str.
Qed.

Lemma originalFileName_leading_dot ext :
  ~ In "."%char (list_ascii_of_string ext) ->
  originalFileName (String "." ext) = String "." ext.
Proof.
  intros Hnot. unfold originalFileName, lastIndexOf.
  pose proof (lastIndexOf_from_last EmptyString ext "." 0 (-1) Hnot) as H.
  change (EmptyString +:+ String "."%char ext) with (String "."%char ext) in H.
  rewrite H. done.
Qed.
End FileNames.

Section Digits.
Lemma length_string_of_uint u :
  String.length (NilEmpty.string_of_uint u) = Decimal.nb_digits u.
Proof. induction u; cbn; congruence. Qed.

Lemma usize_nb_digits u : Unsigned.usize u = Decimal.nb_digits u.
Proof. induction u; cbn; congruence. Qed.

Lemma of_lu_bound u : (Unsigned.of_lu u < 10 ^ Unsigned.usize u)%nat.
Proof.
  induction u; cbn [Unsigned.usize Unsigned.of_lu];
    rewrite ?Nat.pow_succ_r'; [cbn|..]; lia.
Qed.

(** A number with [n + 1] digits at least has a decimal string that long. *)
Lemma length_String_of k n :
  (10 ^ n <= k)%nat -> (n < String.length (String_of k))%nat.
Proof.
  intros Hk. unfold String_of. rewrite length_string_of_uint.
  pose proof (of_lu_bound (Decimal.rev (Nat.to_uint k))) as Hb.
  rewrite <- Unsigned.of_uint_alt, Unsigned.of_to in Hb.
  rewrite usize_nb_digits, nb_digits_rev in Hb.
  apply (Nat.pow_lt_mono_r_iff 10); [lia|]. lia.
Qed.

Lemma length_zeros n : String.length (zeros n) = n.
Proof. induction n; cbn; congruence. Qed.

Lemma length_append a b :
  String.length (a +:+ b) = (String.length a + String.length b)%nat.
Proof.
  induction a as [|x a IH]; [done|].
  change (String x a +:+ b) with (String x (a +:+ b)).
  cbn [String.length]. by rewrite IH.
Qed.

Lemma padStart0_length target str :
  String.length (padStart0 target str)
  = Nat.max target (String.length str).
Proof. unfold padStart0. rewrite length_append, length_zeros. lia. Qed.

Lemma padStart0_long target str :
  (target <= String.length str)%nat -> padStart0 target str = str.
Proof.
  intros H. unfold padStart0.
  by replace (target - String.length str)%nat with 0%nat by lia.
Qed.

Lemma length_String_of_small k :
  (k <= 99)%nat -> (String.length (String_of k) <= 2)%nat.
Proof.
  intros Hk.
  assert (H : forallb (fun k => String.length (String_of k) <=? 2)%nat
                      (seq 0 100) = true) by (vm_compute; reflexivity).
  rewrite forallb_forall in H.
  apply Nat.leb_le, H, in_seq. lia.
Qed.
End Digits.

(* ===================================================================== *)
(** ** The byte splitter *)
(* ===================================================================== *)

Section ByteSplit.
Variable file : Blob.
Variable chunkSizeInBytes : Z.
Hypothesis Hpositive : 0 < chunkSizeInBytes.

Lemma clampIndex_inside t len :
  0 <= t <= Z.of_nat len -> clampIndex t len = Z.to_nat t.
Proof.
  intros Ht. unfold clampIndex.
  destruct (Z.ltb_spec t 0); [lia|]. f_equal. lia.
Qed.

Lemma slice_inside start end_ ty :
  0 <= start <= end_ -> end_ <= size file ->
  blob_bytes (slice file start end_ ty)
  = take (Z.to_nat (end_ - start)) (drop (Z.to_nat start) (blob_bytes file)).
Proof.
  intros H1 H2. unfold slice, size in *. cbn [blob_bytes].
  rewrite !clampIndex_inside by lia. f_equal. lia.
Qed.


Lemma splitLoop_spec fuel : forall start acc,
  0 <= start <= size file ->
  (Z.to_nat (size file - start) < fuel)%nat ->
  exists rest,
    splitLoop fuel file chunkSizeInBytes start acc = Some (acc ++ rest)
    /\ split_post file chunkSizeInBytes start rest.
Proof.
  induction fuel as [|fuel IH]; intros start acc Hstart Hfuel; [lia|].
  cbn [splitLoop]. destruct (Z.ltb_spec start (size file)) as [Hlt|Hge].
  - set (end_ := Z.min (start + chunkSizeInBytes) (size file)).
    set (chunk := slice file start end_ (blob_type file)).
    destruct (IH end_ (acc ++ [chunk])) as (rest & Hrun & Hcat & Hsz & Hnil);
      [lia|lia|].
    exists (chunk :: rest). split; [by rewrite Hrun, <- app_assoc|].
    assert (Hbytes : blob_bytes chunk
              = take (Z.to_nat (end_ - start))
                     (drop (Z.to_nat start) (blob_bytes file)))
      by (apply slice_inside; lia).
    assert (Hsize : size chunk = end_ - start).
    { unfold size at 1. rewrite Hbytes, length_take, length_drop.
      unfold size in *. lia. }
    split; [|split].
    + cbn [map concat]. rewrite Hcat, Hbytes.
      replace (Z.to_nat end_)
        with (Z.to_nat start + Z.to_nat (end_ - start))%nat by lia.
      rewrite <- drop_drop. apply take_drop.
    + intros [|i] c Hc; cbn in Hc.
      * injection Hc as <-. rewrite Hsize. split; [lia|]. split; [done|].
        intros Hmore. destruct rest as [|r rest']; [cbn in Hmore; lia|].
        destruct (Z.le_gt_cases (size file) end_) as [Hend|Hend];
          [by apply Hnil in Hend|lia].
      * destruct (Hsz i c Hc) as (H1 & H2 & H3).
        split; [done|]. split; [done|]. intros Hmore. apply H3.
        cbn [length] in Hmore. lia.
    + lia.
  - exists []. rewrite app_nil_r. split; [done|].
    split; [|split]; [|intros i c Hc; by rewrite lookup_nil in Hc|done].
    cbn. rewrite drop_ge; [done|]. unfold size in *. lia.
Qed.
End ByteSplit.

(* ===================================================================== *)
(** ** The clamp of the encoder, buffers of no frame *)
(* ===================================================================== *)

Section Saturation.
Lemma clampedSample_above s :
leb (of_Z 1) s = true -> clampedSample s = of_Z 1.
Proof.
unfold clampedSample, leb, SFleb, Math_min. rewrite of_Z_1.
destruct (SFcompare (S754_finite false 4503599627370496 (-52)) s)
  as [[]|]; try discriminate; intros _; reflexivity.
Qed.

Lemma clampedSample_below s :
leb s (of_Z (-1)) = true -> clampedSample s = of_Z (-1).
Proof.
unfold clampedSample, leb, SFleb. rewrite of_Z_1, of_Z_m1.
destruct s as [sg|sg| |sg m e]; cbn [SFcompare].
- destruct sg; discriminate.
- destruct sg; [reflexivity|discriminate].
- discriminate.
- destruct sg; [|discriminate].
  unfold Math_min, Math_max. cbv beta iota delta [SFcompare].
  rewrite (compare_cont_Eq m 4503599627370496).
  rewrite (compare_cont_Eq 4503599627370496 m).
  rewrite (Z.compare_antisym e (-52)), (Pos.compare_antisym m 4503599627370496).
  destruct (Z.compare e (-52)); cbv beta iota delta [CompOpp];
    try discriminate; try reflexivity.
  destruct (Pos.compare m 4503599627370496); cbv beta iota delta [CompOpp];
    try discriminate; reflexivity.
Qed.

Lemma clampedSample_inside s :
leb (of_Z 1) s = false -> leb s (of_Z (-1)) = false ->
clampedSample s = s.
Proof.
unfold clampedSample, leb, SFleb. rewrite of_Z_1, of_Z_m1.
destruct s as [sg|sg| |sg m e]; cbn [SFcompare].
- intros _ _. destruct sg; reflexivity.
- destruct sg; discriminate.
- reflexivity.
- destruct sg.
  + intros _. unfold Math_min, Math_max. cbv beta iota delta [SFcompare].
    rewrite (compare_cont_Eq m 4503599627370496).
    rewrite (compare_cont_Eq 4503599627370496 m).
    rewrite (Z.compare_antisym e (-52)),
      (Pos.compare_antisym m 4503599627370496).
    destruct (Z.compare e (-52)); cbv beta iota delta [CompOpp];
      try discriminate; try reflexivity.
    destruct (Pos.compare m 4503599627370496);
      cbv beta iota delta [CompOpp]; try discriminate; reflexivity.
  + intros Hone _. unfold Math_min. cbv beta iota delta [SFcompare] in *.
    destruct (Z.compare (-52) e); try discriminate; try reflexivity.
    destruct (Pos.compare_cont Eq 4503599627370496 m);
      try discriminate; reflexivity.
Qed.

(** The clamp of the encoder is the clamp of the specification. *)
Lemma clampedSample_spec s : clampedSample s = spec_clamp s.
Proof.
unfold spec_clamp.
destruct (leb (of_Z 1) s) eqn:Hone; [by apply clampedSample_above|].
destruct (leb s (of_Z (-1))) eqn:Hminus; [by apply clampedSample_below|].
by apply clampedSample_inside.
Qed.
End Saturation.

(** A decoded buffer of no frame: its duration is zero (NaN at a sample
    rate of zero) and no iteration is made. *)
Lemma no_frame_no_loop b d :
  frames b = 0%nat ->
  ltb (of_Z (Z.of_nat 0)) (totalChunks b d) = false.
Proof.
  intros Hframes. unfold totalChunks, totalDuration, duration.
  rewrite Hframes.
  destruct (of_Z (sampleRate b)) as [s|s| |s m e];
    destruct d as [sd|sd| |sd md ed]; try destruct s; try destruct sd;
    reflexivity.
Qed.

(** A name has no dot, or it is a stem, a dot and an extension without a
    dot: the stem is what stands before the last dot. *)
Lemma last_dot_split (fileName : string) :
  ~ In "."%char (list_ascii_of_string fileName)
  \/ exists stem ext,
       fileName = stem +:+ String "." ext
       /\ ~ In "."%char (list_ascii_of_string ext).
Proof.
  induction fileName as [|c rest IH].
  - left. intros [].
  - destruct IH as [Hnone|(stem & ext & -> & Hext)].
    + destruct (Ascii.eqb_spec c ".") as [->|Hc].
      * right. exists EmptyString, rest. split; [reflexivity|exact Hnone].
      * left. cbn [list_ascii_of_string In]. intros [H|H]; [congruence|tauto].
    + right. exists (String c stem), ext. split; [reflexivity|exact Hext].
Qed.

(* ===================================================================== *)
(** ** Properties of the specification *)
(* ===================================================================== *)

Section LoopSteps.
Variable fileName : string.
Variable decodedBuffer : AudioBuffer.
Variable d : number.

Lemma chunkLoop_iterate fuel i log chunks chunks' :
  ltb (of_Z (Z.of_nat i)) (totalChunks decodedBuffer d) = true ->
  iteration fileName decodedBuffer d i chunks = Ok chunks' ->
  chunkLoop fileName decodedBuffer d (S fuel) i log chunks
  = chunkLoop fileName decodedBuffer d fuel (S i)
      (log ++ [Procesando (i + 1) (totalChunks decodedBuffer d)]) chunks'.
Proof. intros Hlt Hit. cbn [chunkLoop]. by rewrite Hlt, Hit. Qed.

Lemma chunkLoop_exit fuel i log chunks :
  ltb (of_Z (Z.of_nat i)) (totalChunks decodedBuffer d) = false ->
  chunkLoop fileName decodedBuffer d (S fuel) i log chunks
  = Resolved log chunks.
Proof. intros Hlt. cbn [chunkLoop]. by rewrite Hlt. Qed.
End LoopSteps.


Lemma relativeIndex_finite x len t :
  isFinite x = true -> truncZ x = t -> 0 <= t <= Z.of_nat len ->
  relativeIndex x len = Z.to_nat t.
Proof.
  intros Hfin <- Ht. unfold relativeIndex.
  destruct x as [s|s| |s m e]; try discriminate.
  - unfold clampIndex. cbn [truncZ] in *. destruct (Z.ltb_spec 0 0); lia.
  - unfold clampIndex. destruct (Z.ltb_spec (truncZ (S754_finite s m e)) 0); lia.
Qed.

(** The windows depend on the decoded buffer through its sample rate and
    its length only. *)
Lemma window_params b b' d :
  sampleRate b = sampleRate b' ->
  Z.of_nat (frames b) = Z.of_nat (frames b') ->
  totalChunks b d = totalChunks b' d
  /\ forall i,
       startOffset b d i = startOffset b' d i
       /\ endOffset b d i = endOffset b' d i
       /\ frameCount b d i = frameCount b' d i
       /\ degenerate b d i = degenerate b' d i.
Proof.
  intros Hrate Hlen.
  unfold degenerate, frameCount, endOffset, startOffset, endTime,
    totalChunks, totalDuration, duration.
  rewrite Hrate, Hlen. done.
Qed.

(** C5.  Ten seconds of one channel at 8000 Hz (80000 frames, whatever
    the samples) split by 3 seconds: [totalChunks] is ceil(10 / 3) = 4 and
    the run resolves with four chunks, the WAV encodings of the frames
    [0, 24000), [24000, 48000), [48000, 72000) and [72000, 80000), that is
    of 24000, 24000, 24000 and 8000 frames, named <base>_parte_01.wav to
    <base>_parte_04.wav. *)
Theorem chunking_10s_mono_8000 (fileName : string) (data : list number)
    (fuel : nat) :
  Z.of_nat (length data) = 80000 -> (5 <= fuel)%nat ->
  let decoded := mono 8000 data in
  let base := originalFileName fileName in
  let window (so eo : Z) := chunkBufferOf decoded (Z.to_nat so) (Z.to_nat eo) in
  totalChunks decoded (of_Z 3) = of_Z 4
  /\ emittedWindows decoded (of_Z 3) fuel
     = Some [(0, 24000); (24000, 48000); (48000, 72000); (72000, 80000)]
  /\ processAndSplitAudio fileName decoded (of_Z 3) fuel
     = Resolved
         [Decodificando; Procesando 1 (of_Z 4); Procesando 2 (of_Z 4);
          Procesando 3 (of_Z 4); Procesando 4 (of_Z 4)]
         [{| name := base +:+ "_parte_01.wav";
             blob := wavBlob (window 0 24000) |};
          {| name := base +:+ "_parte_02.wav";
             blob := wavBlob (window 24000 48000) |};
          {| name := base +:+ "_parte_03.wav";
             blob := wavBlob (window 48000 72000) |};
          {| name := base +:+ "_parte_04.wav";
             blob := wavBlob (window 72000 80000) |}]
  /\ map (fun b => Z.of_nat (frames b))
         [window 0 24000; window 24000 48000; window 48000 72000;
          window 72000 80000]
     = [24000; 24000; 24000; 8000].
Proof.
  intros Hlen Hfuel decoded base window.
  do 5 (destruct fuel as [|fuel]; [lia|]). clear Hfuel.
  set (b := {| sampleRate := 8000; frames := Z.to_nat 80000;
               channelData := [] |}).
  destruct (window_params decoded b (of_Z 3) eq_refl) as [Etc Ewin].
  { unfold decoded, mono, b. cbn [frames]. lia. }
  assert (Htc : totalChunks decoded (of_Z 3) = of_Z 4).
  { rewrite Etc. vm_compute. reflexivity. }
  split; [exact Htc|].
  split.
  { unfold emittedWindows. cbn [windowsFrom]. rewrite Etc.
    repeat match goal with
           | |- context [degenerate decoded _ ?i] =>
               rewrite (proj2 (proj2 (proj2 (Ewin i))))
           | |- context [startOffset decoded _ ?i] =>
               rewrite (proj1 (Ewin i))
           | |- context [endOffset decoded _ ?i] =>
               rewrite (proj1 (proj2 (Ewin i)))
           end.
    vm_compute. reflexivity. }
  split.
  2:{ unfold window, chunkBufferOf. cbn [map frames].
      repeat (f_equal; [lia|]). done. }
  assert (Hwf : wf_buffer decoded).
  { unfold wf_buffer, decoded, mono. cbn [channelData frames].
    by repeat constructor. }
  assert (Hframes : Z.of_nat (frames decoded) = 80000) by exact Hlen.
  assert (Hchan : (0 < numberOfChannels decoded)%nat)
    by (unfold decoded, mono, numberOfChannels; cbn; lia).
  assert (Hstep : forall i so eo,
    ltb (of_Z (Z.of_nat i)) (totalChunks b (of_Z 3)) = true
    /\ isFinite (startOffset b (of_Z 3) i) = true
    /\ truncZ (startOffset b (of_Z 3) i) = so
    /\ isFinite (endOffset b (of_Z 3) i) = true
    /\ truncZ (endOffset b (of_Z 3) i) = eo
    /\ degenerate b (of_Z 3) i = false
    /\ ToUint32 (frameCount b (of_Z 3) i) = eo - so
    /\ (0 <=? so) && (so <? eo) && (eo <=? 80000) = true ->
    forall fuel log chunks,
    chunkLoop fileName decoded (of_Z 3) (S fuel) i log chunks
    = chunkLoop fileName decoded (of_Z 3) fuel (S i)
        (log ++ [Procesando (i + 1) (of_Z 4)])
        (chunks ++ [{| name := chunkName fileName (i + 1);
                       blob := wavBlob (window so eo) |}])).
  { intros i so eo (H1 & H2 & H3 & H4 & H5 & H6 & H7 & H8) f log chunks.
    apply andb_prop in H8 as [H8 H10]. apply andb_prop in H8 as [H8 H9].
    apply Z.leb_le in H8, H10. apply Z.ltb_lt in H9.
    destruct (Ewin i) as (Es & Ee & Ef & Ed).
    rewrite <- Htc. apply chunkLoop_iterate; [rewrite Etc; exact H1|].
    unfold window. apply iteration_window.
    - exact Hwf.
    - rewrite Es. apply relativeIndex_finite; [exact H2|exact H3|lia].
    - rewrite Ee. apply relativeIndex_finite; [exact H4|exact H5|lia].
    - lia.
    - exact Hchan.
    - rewrite Ed. exact H6.
    - rewrite Ef, H7. lia.
    - lia. }
  unfold processAndSplitAudio.
  rewrite (Hstep 0%nat 0 24000) by (vm_compute; repeat split).
  rewrite (Hstep 1%nat 24000 48000) by (vm_compute; repeat split).
  rewrite (Hstep 2%nat 48000 72000) by (vm_compute; repeat split).
  rewrite (Hstep 3%nat 72000 80000) by (vm_compute; repeat split).
  rewrite chunkLoop_exit.
  - reflexivity.
  - rewrite Etc. vm_compute. reflexivity.
Qed.



(** C1 (a defect of the code).  The claim: the windows of the chunks
    cover the frames [0, L) without gap, the last window ending at L.
    The code takes the end of the last window from
    [Math.floor(duration * sampleRate)] with [duration = L / sampleRate]
    in binary64, and for 15 frames at 44100 Hz this is 14: the run emits
    one chunk of the frames [0, 14) and the last frame is in no chunk.
    The same rounding gives 7938006 for a file of 7938007 frames. *)
Theorem last_frame_dropped :
  processAndSplitAudio "audio.mp3" (mono 44100 (silence 15)) (of_Z 180) 2
  = Resolved [Decodificando; Procesando 1 (of_Z 1)]
      [{| name := "audio_parte_01.wav";
          blob := wavBlob (mono 44100 (silence 14)) |}]
  /\ emittedWindows (mono 44100 (silence 15)) (of_Z 180) 2 = Some [(0, 14)]
  /\ truncZ (Math_floor (mul (div (of_Z 15) (of_Z 44100)) (of_Z 44100))) = 14
  /\ truncZ (Math_floor (mul (div (of_Z 7938007) (of_Z 44100)) (of_Z 44100)))
     = 7938006.
Proof. vm_compute. repeat split. Qed.

(** C2, counterexample.  The sample 0.25 scales to 8191.75; the encoder
    stores 8191, where rounding to the nearest integer gives 8192. *)
Lemma quantize_not_rounded :
  is_number quarter = true
  /\ ToInt16 (intSample quarter) = 8191
  /\ spec_quantize quarter = 8192
  /\ ToInt16 (intSample quarter) <> spec_quantize quarter.
Proof. vm_compute. repeat split. discriminate. Qed.

(** C2, as amended.  For every binary64 sample the encoder clamps it to
    [-1, 1]: the clamped value is 1 for a sample of 1 or above, -1 for a
    sample of -1 or below, and the sample itself in between (NaN stays
    NaN).  It multiplies the clamped value by 32768 when it is negative
    and by 32767 otherwise, and stores the product truncated towards zero,
    not rounded; the stored value lies in the signed 16-bit range, so the
    conversion to Int16 never wraps. *)
Theorem quantize_truncates (s : number) :
  is_number s = true ->
  clampedSample s = spec_clamp s
  /\ intSample s
     = (if ltb (spec_clamp s) (of_Z 0)
        then mul (spec_clamp s) (of_Z 32768)
        else mul (spec_clamp s) (of_Z 32767))
  /\ (spec_clamp s = S754_nan
      \/ (leb (of_Z (-1)) (spec_clamp s) = true
          /\ leb (spec_clamp s) (of_Z 1) = true))
  /\ ToInt16 (intSample s)
     = truncZ (if ltb (spec_clamp s) (of_Z 0)
               then mul (spec_clamp s) (of_Z 32768)
               else mul (spec_clamp s) (of_Z 32767))
  /\ - 32768 <= ToInt16 (intSample s) <= 32767.
Proof.
  intros Hs. pose proof (intSample_trunc_range s Hs) as Hrange.
  pose proof (clampedSample_range s Hs) as Hclamped.
  assert (Hint : intSample s
                 = (if ltb (spec_clamp s) (of_Z 0)
                    then mul (spec_clamp s) (of_Z 32768)
                    else mul (spec_clamp s) (of_Z 32767)))
    by (unfold intSample; cbv zeta; rewrite clampedSample_spec;
        reflexivity).
  rewrite clampedSample_spec in Hclamped.
  split; [apply clampedSample_spec|]. split; [exact Hint|].
  split; [exact Hclamped|].
  rewrite <- Hint.
  rewrite ToInt16_small by (change (2 ^ 15) with 32768; lia).
  split; [reflexivity|exact Hrange].
Qed.

Lemma quantize_truncates_witness :
  is_number half = true
  /\ clampedSample half = half
  /\ ToInt16 (intSample half) = 16383
  /\ clampedSample one_and_a_half = of_Z 1.
Proof.
  destruct (quantize_truncates half eq_refl) as (Hclamp & _ & _ & Hstored & _).
  destruct (quantize_truncates one_and_a_half eq_refl) as (Hclamp' & _).
  split; [reflexivity|]. split; [rewrite Hclamp; reflexivity|].
  split; [rewrite Hstored; vm_compute; reflexivity|].
  rewrite Hclamp'. reflexivity.
Defined.

(** C3.  For every buffer the encoder returns a blob of 44 + L * channels
    * 2 bytes whose first 44 bytes are the header of section 4.3: the
    markers 'RIFF', 'WAVE', 'fmt ' and 'data' at offsets 0, 8, 12 and 36,
    and the numeric fields as unsigned little-endian integers of their
    width (a value that fits in its field is stored as it is).  For one
    second of silence in one channel at 44100 Hz the blob has 44 + 44100 *
    2 bytes: the header spelled out below, then zeros. *)
Theorem wav_header_layout :
  (forall buffer : AudioBuffer,
     let channels := Z.of_nat (numberOfChannels buffer) in
     let dataSize := Z.of_nat (frames buffer) * channels * 2 in
     exists bytes,
       audioBufferToWav buffer
       = Ok {| blob_bytes := bytes; blob_type := "audio/wav" |}
       /\ Z.of_nat (length bytes) = 44 + dataSize
       /\ field bytes 0 4 = ascii_codes "RIFF"
       /\ le_combine (field bytes 4 4) = (36 + dataSize) mod 2 ^ 32
       /\ field bytes 8 4 = ascii_codes "WAVE"
       /\ field bytes 12 4 = ascii_codes "fmt "
       /\ le_combine (field bytes 16 4) = 16
       /\ le_combine (field bytes 20 2) = 1
       /\ le_combine (field bytes 22 2) = channels mod 2 ^ 16
       /\ le_combine (field bytes 24 4) = sampleRate buffer mod 2 ^ 32
       /\ le_combine (field bytes 28 4)
          = (sampleRate buffer * channels * 2) mod 2 ^ 32
       /\ le_combine (field bytes 32 2) = (channels * 2) mod 2 ^ 16
       /\ le_combine (field bytes 34 2) = 16
       /\ field bytes 36 4 = ascii_codes "data"
       /\ le_combine (field bytes 40 4) = dataSize mod 2 ^ 32)
  /\ (exists bytes,
        audioBufferToWav (mono 44100 (silence (Z.to_nat 44100)))
        = Ok {| blob_bytes := bytes; blob_type := "audio/wav" |}
        /\ Z.of_nat (length bytes) = 44 + 44100 * 2
        /\ bytes
           = [82; 73; 70; 70; 172; 88; 1; 0; 87; 65; 86; 69;
              102; 109; 116; 32; 16; 0; 0; 0; 1; 0; 1; 0;
              68; 172; 0; 0; 136; 88; 1; 0; 2; 0; 16; 0;
              100; 97; 116; 97; 136; 88; 1; 0]
             ++ replicate (2 * Z.to_nat 44100) 0).
Proof.
  split.
  - intros buffer channels dataSize.
    exists (headerBytes buffer ++ pcmBytes buffer).
    split; [apply audioBufferToWav_wavBlob|].
    split.
    { rewrite length_app, length_headerBytes, length_pcmBytes.
      unfold dataSizeOf, dataSize, channels. lia. }
    assert (Hsize : Z.of_nat (dataSizeOf buffer) = dataSize)
      by (unfold dataSizeOf, dataSize, channels; lia).
    rewrite !field_wav_header by lia.
    repeat split.
    + change (field (headerBytes buffer) 4 4)
        with (bytes32 (36 + Z.of_nat (dataSizeOf buffer))).
      by rewrite le_combine_bytes32, Hsize.
    + change (field (headerBytes buffer) 22 2)
        with (bytes16 (Z.of_nat (numberOfChannels buffer))).
      by rewrite le_combine_bytes16.
    + change (field (headerBytes buffer) 24 4)
        with (bytes32 (sampleRate buffer)).
      by rewrite le_combine_bytes32.
    + change (field (headerBytes buffer) 28 4)
        with (bytes32 (sampleRate buffer
                       * Z.of_nat (numberOfChannels buffer * 2))).
      rewrite le_combine_bytes32. f_equal. unfold channels. lia.
    + change (field (headerBytes buffer) 32 2)
        with (bytes16 (Z.of_nat (numberOfChannels buffer * 2))).
      rewrite le_combine_bytes16. f_equal. unfold channels. lia.
    + change (field (headerBytes buffer) 40 4)
        with (bytes32 (Z.of_nat (dataSizeOf buffer))).
      by rewrite le_combine_bytes32, Hsize.
  - eexists. split; [apply audioBufferToWav_wavBlob|].
    cbn [wavBlob blob_bytes]. rewrite pcmBytes_silence.
    split.
    + rewrite length_app, length_headerBytes, length_replicate. lia.
    + apply (f_equal (fun header => header ++ _)).
      vm_compute. reflexivity.
Qed.

(** C4.  The PCM data go frame by frame and, inside a frame, channel by
    channel: the sample of channel [c] in frame [i] is the signed 16-bit
    little-endian integer at byte offset 44 + 2 * (i * channels + c).  For
    two channels, offset 44 holds channel 0 of frame 0, offset 46 channel 1
    of frame 0, and offset 48 channel 0 of frame 1. *)
Theorem wav_interleaving (buffer : AudioBuffer) :
  exists bytes,
    audioBufferToWav buffer
    = Ok {| blob_bytes := bytes; blob_type := "audio/wav" |}
    /\ drop 44 bytes = pcmBytes buffer
    /\ (forall i c,
          (i < frames buffer)%nat -> (c < numberOfChannels buffer)%nat ->
          int16_of (field bytes (44 + 2 * (i * numberOfChannels buffer + c)) 2)
          = pcmSample buffer i c)
    /\ (numberOfChannels buffer = 2%nat -> (2 <= frames buffer)%nat ->
        int16_of (field bytes 44 2) = pcmSample buffer 0 0
        /\ int16_of (field bytes 46 2) = pcmSample buffer 0 1
        /\ int16_of (field bytes 48 2) = pcmSample buffer 1 0).
Proof.
  exists (headerBytes buffer ++ pcmBytes buffer).
  split; [apply audioBufferToWav_wavBlob|].
  split.
  { change 44%nat with (length (headerBytes buffer)).
    by rewrite drop_app_length. }
  assert (Hgen : forall i c,
    (i < frames buffer)%nat -> (c < numberOfChannels buffer)%nat ->
    int16_of (field (headerBytes buffer ++ pcmBytes buffer)
                    (44 + 2 * (i * numberOfChannels buffer + c)) 2)
    = pcmSample buffer i c).
  { intros i c Hi Hc.
    rewrite field_wav_pcm, field_pcmBytes by done.
    apply int16_of_bytes16, ToInt16_range. }
  split; [exact Hgen|].
  intros Hch Hfr.
  split; [|split].
  - rewrite <- (Hgen 0%nat 0%nat) by lia. f_equal.
  - rewrite <- (Hgen 0%nat 1%nat) by lia. f_equal.
  - rewrite <- (Hgen 1%nat 0%nat) by lia. rewrite Hch. f_equal.
Qed.

Lemma wav_interleaving_witness :
  exists bytes,
    audioBufferToWav stereo2
    = Ok {| blob_bytes := bytes; blob_type := "audio/wav" |}
    /\ int16_of (field bytes 44 2) = 32767
    /\ int16_of (field bytes 46 2) = -32768
    /\ int16_of (field bytes 48 2) = 16383.
Proof.
  destruct (wav_interleaving stereo2) as (bytes & Hwav & _ & _ & Hstereo).
  exists bytes. split; [exact Hwav|].
  destruct (Hstereo eq_refl (le_n 2)) as (H0 & H1 & H2).
  rewrite H0, H1, H2. vm_compute. repeat split.
Defined.

(** C8.  The sample 1.0 is stored as 32767, the sample -1.0 as -32768,
    and the sample 1.5 as 1.0 is; the same is read back from the bytes of
    an encoded buffer. *)
Theorem quantization_boundaries :
  ToInt16 (intSample (of_Z 1)) = 32767
  /\ ToInt16 (intSample (of_Z (-1))) = -32768
  /\ ToInt16 (intSample one_and_a_half) = ToInt16 (intSample (of_Z 1))
  /\ exists bytes,
       audioBufferToWav (mono 44100 [of_Z 1; of_Z (-1); one_and_a_half])
       = Ok {| blob_bytes := bytes; blob_type := "audio/wav" |}
       /\ int16_of (field bytes 44 2) = 32767
       /\ int16_of (field bytes 46 2) = -32768
       /\ int16_of (field bytes 48 2) = 32767.
Proof.
  split; [reflexivity|]. split; [reflexivity|]. split; [reflexivity|].
  eexists. split; [vm_compute; reflexivity|].
  vm_compute. repeat split.
Qed.

(** C6, counterexample.  With 1001 frames at 8000 Hz and chunks of 0.125
    seconds the second index is degenerate (its window is empty); no chunk
    is emitted for it, but its progress message 'Procesando trozo 2 de 2'
    is reported. *)
Lemma skipped_index_is_reported :
  degenerate (mono 8000 (silence 1001)) eighth 1 = true
  /\ exists chunk,
       processAndSplitAudio "audio.mp3" (mono 8000 (silence 1001)) eighth 3
       = Resolved
           [Decodificando; Procesando 1 (of_Z 2); Procesando 2 (of_Z 2)]
           [chunk]
       /\ In (Procesando 2 (of_Z 2))
             [Decodificando; Procesando 1 (of_Z 2); Procesando 2 (of_Z 2)].
Proof.
  split; [vm_compute; reflexivity|].
  eexists. split; [vm_compute; reflexivity|].
  cbn [In]. auto.
Qed.

(** C6, as amended.  An index whose window is degenerate is skipped
    without an error and without a chunk, and the run goes on with the
    next index; its progress message has been reported before the window
    is examined.  A run that resolves has reported one message for every
    index, and holds one chunk for every index that is not degenerate. *)
Theorem degenerate_index_skipped (fileName : string)
    (decodedBuffer : AudioBuffer) (d : number) :
  (forall i chunks,
     degenerate decodedBuffer d i = true ->
     iteration fileName decodedBuffer d i chunks = Ok chunks)
  /\ (forall fuel i log chunks,
        degenerate decodedBuffer d i = true ->
        ltb (of_Z (Z.of_nat i)) (totalChunks decodedBuffer d) = true ->
        chunkLoop fileName decodedBuffer d (S fuel) i log chunks
        = chunkLoop fileName decodedBuffer d fuel (S i)
            (log ++ [Procesando (i + 1) (totalChunks decodedBuffer d)])
            chunks)
  /\ (forall fuel log chunks,
        processAndSplitAudio fileName decodedBuffer d fuel
        = Resolved log chunks ->
        exists n,
          log = Decodificando
                :: map (fun j => Procesando (j + 1) (totalChunks decodedBuffer d))
                       (seq 0 n)
          /\ map name chunks
             = map (fun j => chunkName fileName (j + 1))
                   (filter (fun j => negb (degenerate decodedBuffer d j))
                           (seq 0 n))).
Proof.
  split; [|split].
  - intros i chunks. apply iteration_degenerate.
  - intros fuel i log chunks Hdeg Hlt.
    apply chunkLoop_iterate; [exact Hlt|].
    by apply iteration_degenerate.
  - intros fuel log chunks Hrun.
    apply chunkLoop_resolved in Hrun as (n & Hlog & Hnames & _).
    exists n. split; [exact Hlog|exact Hnames].
Qed.

Lemma degenerate_index_skipped_witness :
  degenerate (mono 8000 (silence 1001)) eighth 1 = true
  /\ iteration "audio.mp3" (mono 8000 (silence 1001)) eighth 1 [] = Ok [].
Proof.
  split; [reflexivity|].
  apply (degenerate_index_skipped "audio.mp3" (mono 8000 (silence 1001)) eighth).
  reflexivity.
Defined.

(** C7, counterexample.  The hundredth chunk of a run is named
    'audio_parte_100.wav': its number has three digits, not two. *)
Lemma chunk_100_has_three_digits :
  (exists log chunks,
     processAndSplitAudio "audio.mp3" (mono 8000 (silence 12500))
       sixtyfourth 101
     = Resolved log chunks
     /\ name <$> last chunks = Some "audio_parte_100.wav")
  /\ ~ (exists NN : string,
          String.length NN = 2%nat
          /\ "audio_parte_100.wav" = "audio" +:+ "_parte_" +:+ NN +:+ ".wav").
Proof.
  split.
  - eexists. eexists. split; vm_compute; reflexivity.
  - intros (NN & Hlen & Heq).
    destruct NN as [|a [|b [|c rest]]]; try discriminate Hlen.
    cbn in Heq. discriminate Heq.
Qed.

(** C7, as amended.  Every chunk of a run is named
    <base>_parte_<NN>.wav, where NN is the 1-based index of the loop in
    decimal, padded on the left with zeros to at least two characters: two
    characters up to 99, the digits of the index from 100 on.  <base> is
    the file name with its extension removed, for every file name: the
    name up to its last dot when something stands before that dot; a name
    without a dot, and a name whose only dot is its first character, have
    no extension and are kept whole.  Every name is of one of these
    forms. *)
Theorem chunk_name_format (fileName : string) (decodedBuffer : AudioBuffer)
    (d : number) (fuel : nat) (log : list progress)
    (chunks : list EncodedChunk) :
  processAndSplitAudio fileName decodedBuffer d fuel = Resolved log chunks ->
  (exists n,
     map name chunks
     = map (fun j => originalFileName fileName +:+ "_parte_"
                     +:+ padStart0 2 (String_of (j + 1)) +:+ ".wav")
           (filter (fun j => negb (degenerate decodedBuffer d j)) (seq 0 n)))
  /\ (forall k, (k <= 99)%nat ->
        String.length (padStart0 2 (String_of k)) = 2%nat)
  /\ (forall k, (100 <= k)%nat ->
        padStart0 2 (String_of k) = String_of k
        /\ (2 < String.length (String_of k))%nat)
  /\ (forall stem ext,
        stem <> EmptyString ->
        ~ In "."%char (list_ascii_of_string ext) ->
        originalFileName (stem +:+ String "." ext) = stem)
  /\ (forall str,
        ~ In "."%char (list_ascii_of_string str) ->
        originalFileName str = str)
  /\ (forall ext,
        ~ In "."%char (list_ascii_of_string ext) ->
        originalFileName (String "." ext) = String "." ext)
  /\ (forall str,
        ~ In "."%char (list_ascii_of_string str)
        \/ exists stem ext,
             str = stem +:+ String "." ext
             /\ ~ In "."%char (list_ascii_of_string ext)).
Proof.
  intros Hrun.
  apply chunkLoop_resolved in Hrun as (n & _ & Hnames & _).
  split; [by exists n|].
  split.
  { intros k Hk. rewrite padStart0_length.
    pose proof (length_String_of_small k Hk). lia. }
  split.
  { intros k Hk.
    assert (2 < String.length (String_of k))%nat
      by (apply length_String_of; cbn; lia).
    split; [apply padStart0_long; lia|done]. }
  split; [apply originalFileName_stem|].
  split; [apply originalFileName_no_dot|].
  split; [apply originalFileName_leading_dot|apply last_dot_split].
Qed.

Lemma chunk_name_format_witness :
  processAndSplitAudio "audio.mp3" (mono 44100 (silence 15)) (of_Z 180) 2
  = Resolved [Decodificando; Procesando 1 (of_Z 1)]
      [{| name := "audio_parte_01.wav";
          blob := wavBlob (mono 44100 (silence 14)) |}]
  /\ String.length (padStart0 2 (String_of 7)) = 2%nat
  /\ originalFileName "a.b.mp3" = "a.b"
  /\ originalFileName ".mp3" = ".mp3".
Proof.
  assert (Hrun :
    processAndSplitAudio "audio.mp3" (mono 44100 (silence 15)) (of_Z 180) 2
    = Resolved [Decodificando; Procesando 1 (of_Z 1)]
        [{| name := "audio_parte_01.wav";
            blob := wavBlob (mono 44100 (silence 14)) |}])
    by (vm_compute; reflexivity).
  split; [exact Hrun|].
  destruct (chunk_name_format _ _ _ _ _ _ Hrun)
    as (_ & Hpad & _ & Hstem & _ & Hdot & _).
  split; [apply Hpad; lia|]. split.
  - apply (Hstem "a.b" "mp3"); [discriminate|].
    cbn. intros [H|[H|[H|[]]]]; discriminate H.
  - apply (Hdot "mp3"). cbn. intros [H|[H|[H|[]]]]; discriminate H.
Defined.

(** C9.  For every decoded buffer whose duration is zero, and for every
    decoded buffer whose channels are empty, that is of no frame (whatever
    the number of its channels, none included), and whatever the chunk
    duration, the run resolves with no chunk and no error, after the
    decoding message alone. *)
Theorem zero_duration_empty (fileName : string) (decodedBuffer : AudioBuffer)
    (d : number) (fuel : nat) :
  SFeqb (duration decodedBuffer) (of_Z 0) = true
  \/ frames decodedBuffer = 0%nat ->
  processAndSplitAudio fileName decodedBuffer d (S fuel)
  = Resolved [Decodificando] [].
Proof.
  intros Hzero. unfold processAndSplitAudio.
  apply chunkLoop_exit. destruct Hzero as [Hzero|Hempty].
  - by apply zero_duration_no_loop.
  - by apply no_frame_no_loop.
Qed.

Lemma zero_duration_empty_witness :
  SFeqb (duration (mono 44100 [])) (of_Z 0) = true
  /\ processAndSplitAudio "audio.mp3" (mono 44100 []) (of_Z 180) 1
     = Resolved [Decodificando] []
  /\ processAndSplitAudio "audio.mp3"
       {| sampleRate := 44100; frames := 0; channelData := [] |} (of_Z 180) 1
     = Resolved [Decodificando] []
  /\ processAndSplitAudio "audio.mp3"
       {| sampleRate := 44100; frames := 0; channelData := [[]; []] |}
       (of_Z 180) 1
     = Resolved [Decodificando] [].
Proof.
  split; [reflexivity|]. split; [|split].
  - apply (zero_duration_empty "audio.mp3" (mono 44100 []) (of_Z 180) 0).
    left. reflexivity.
  - apply (zero_duration_empty "audio.mp3"
             {| sampleRate := 44100; frames := 0; channelData := [] |}
             (of_Z 180) 0).
    right. reflexivity.
  - apply (zero_duration_empty "audio.mp3"
             {| sampleRate := 44100; frames := 0; channelData := [[]; []] |}
             (of_Z 180) 0).
    right. reflexivity.
Defined.

(** C10.  For a positive chunk size (and fuel for the loop) the chunks,
    concatenated in order, are the bytes of the file; no chunk is longer
    than the chunk size and every chunk but the last has exactly that
    size; a file that is not longer than the chunk size is returned
    itself, as the only element. *)
Theorem splitAudioFile_chunks (file : File) (chunkSizeInBytes : Z)
    (fuel : nat) :
  0 < chunkSizeInBytes ->
  (length (blob_bytes (file_blob file)) < fuel)%nat ->
  exists chunks,
    splitAudioFile fuel file chunkSizeInBytes = Some chunks
    /\ concat (map blob_bytes chunks) = blob_bytes (file_blob file)
    /\ (forall i c, chunks !! i = Some c ->
          size c <= chunkSizeInBytes
          /\ ((S i < length chunks)%nat -> size c = chunkSizeInBytes))
    /\ (size (file_blob file) <= chunkSizeInBytes ->
        chunks = [file_blob file]).
Proof.
  intros Hpos Hfuel. unfold splitAudioFile.
  destruct (Z.leb_spec (size (file_blob file)) chunkSizeInBytes) as [Hle|Hgt].
  - exists [file_blob file]. split; [done|].
    split; [cbn; by rewrite app_nil_r|].
    split; [|done].
    intros [|i] c Hc; cbn in Hc; [|discriminate Hc].
    injection Hc as <-. split; [done|]. cbn. lia.
  - destruct (splitLoop_spec (file_blob file) chunkSizeInBytes Hpos fuel 0 [])
      as (rest & Hrun & Hcat & Hsz & _).
    { unfold size. lia. }
    { unfold size. lia. }
    exists rest. split; [exact Hrun|].
    split; [exact Hcat|].
    split; [|lia].
    intros i c Hc. destruct (Hsz i c Hc) as (H1 & _ & H3). split; [lia|done].
Qed.

Lemma splitAudioFile_chunks_witness :
  splitAudioFile 8 sample_file 3
  = Some [{| blob_bytes := [1; 2; 3]; blob_type := "audio/ogg" |};
          {| blob_bytes := [4; 5; 6]; blob_type := "audio/ogg" |};
          {| blob_bytes := [7]; blob_type := "audio/ogg" |}]
  /\ exists chunks,
       splitAudioFile 8 sample_file 3 = Some chunks
       /\ concat (map blob_bytes chunks) = [1; 2; 3; 4; 5; 6; 7].
Proof.
  split; [reflexivity|].
  destruct (splitAudioFile_chunks sample_file 3 8) as (chunks & H1 & H2 & _).
  - lia.
  - cbn. lia.
  - exists chunks. split; [exact H1|exact H2].
Defined.

Lemma chunking_10s_mono_8000_witness :
  Z.of_nat (length (silence (Z.to_nat 80000))) = 80000
  /\ (5 <= 5)%nat
  /\ processAndSplitAudio "audio.mp3" (mono 8000 (silence (Z.to_nat 80000)))
       (of_Z 3) 5
     = Resolved
         [Decodificando; Procesando 1 (of_Z 4); Procesando 2 (of_Z 4);
          Procesando 3 (of_Z 4); Procesando 4 (of_Z 4)]
         [{| name := "audio_parte_01.wav";
             blob := wavBlob (chunkBufferOf
                                (mono 8000 (silence (Z.to_nat 80000)))
                                (Z.to_nat 0) (Z.to_nat 24000)) |};
          {| name := "audio_parte_02.wav";
             blob := wavBlob (chunkBufferOf
                                (mono 8000 (silence (Z.to_nat 80000)))
                                (Z.to_nat 24000) (Z.to_nat 48000)) |};
          {| name := "audio_parte_03.wav";
             blob := wavBlob (chunkBufferOf
                                (mono 8000 (silence (Z.to_nat 80000)))
                                (Z.to_nat 48000) (Z.to_nat 72000)) |};
          {| name := "audio_parte_04.wav";
             blob := wavBlob (chunkBufferOf
                                (mono 8000 (silence (Z.to_nat 80000)))
                                (Z.to_nat 72000) (Z.to_nat 80000)) |}].
Proof.
  assert (Hlen : Z.of_nat (length (silence (Z.to_nat 80000))) = 80000)
    by (unfold silence; rewrite length_replicate; lia).
  split; [exact Hlen|]. split; [lia|].
  exact (proj1 (proj2 (proj2
    (chunking_10s_mono_8000 "audio.mp3" (silence (Z.to_nat 80000)) 5
       Hlen (le_n 5))))).
Defined.

(* ===================================================================== *)
(** ** More on the byte splitter *)
(* ===================================================================== *)

Section ByteSplitMore.
Variable file : Blob.
Variable chunkSizeInBytes : Z.

Lemma splitLoop_count fuel : forall start acc,
  0 < chunkSizeInBytes ->
  0 <= start <= size file ->
  (Z.to_nat (size file - start) < fuel)%nat ->
  exists rest,
    splitLoop fuel file chunkSizeInBytes start acc = Some (acc ++ rest)
    /\ Z.of_nat (length rest)
       = (size file - start + chunkSizeInBytes - 1) / chunkSizeInBytes.
Proof.
  intros start acc Hpos. revert start acc.
  induction fuel as [|fuel IH]; intros start acc Hstart Hfuel; [lia|].
  cbn [splitLoop]. destruct (Z.ltb_spec start (size file)) as [Hlt|Hge].
  - set (end_ := Z.min (start + chunkSizeInBytes) (size file)).
    destruct (IH end_ (acc ++ [slice file start end_ (blob_type file)]))
      as (rest & Hrun & Hlen); [lia|lia|].
    eexists (_ :: rest). split; [by rewrite Hrun, <- app_assoc|].
    cbn [length]. rewrite Nat2Z.inj_succ, Hlen.
    destruct (Z.le_gt_cases (start + chunkSizeInBytes) (size file)) as [Hfull|Hlast].
    + replace end_ with (start + chunkSizeInBytes) by lia.
      replace (size file - start + chunkSizeInBytes - 1)
        with (size file - (start + chunkSizeInBytes) + chunkSizeInBytes - 1
              + 1 * chunkSizeInBytes) by lia.
      rewrite Z.div_add by lia. lia.
    + replace end_ with (size file) by lia.
      replace (size file - size file + chunkSizeInBytes - 1)
        with (chunkSizeInBytes - 1) by lia.
      rewrite Z.div_small by lia.
      change (Z.succ 0) with 1.
      apply (Z.div_unique _ _ 1 (size file - start - 1)); lia.
  - exists []. rewrite app_nil_r. split; [done|].
    cbn [length]. replace start with (size file) by lia.
    replace (size file - size file + chunkSizeInBytes - 1)
      with (chunkSizeInBytes - 1) by lia.
    by rewrite Z.div_small by lia.
Qed.

(** A chunk size of zero or below: [start] never advances past 0. *)
Lemma splitLoop_stuck fuel : forall start acc,
  chunkSizeInBytes <= 0 -> 0 < size file -> start <= 0 ->
  splitLoop fuel file chunkSizeInBytes start acc = None.
Proof.
  induction fuel as [|fuel IH]; intros start acc Hcs Hsize Hstart; [done|].
  cbn [splitLoop]. destruct (Z.ltb_spec start (size file)); [|lia].
  apply IH; lia.
Qed.
End ByteSplitMore.

(* ===================================================================== *)
(** ** Integers as numbers, signs *)
(* ===================================================================== *)

Section Integers.
Lemma digits2_pos_iter_xO (p : positive) (k : positive) :
  Zpos (digits2_pos (Pos.iter xO p k)) = Zpos (digits2_pos p) + Zpos k.
Proof.
  induction k as [|k IH] using Pos.peano_ind.
  - cbn [Pos.iter digits2_pos]. lia.
  - rewrite Pos.iter_succ. cbn [digits2_pos]. lia.
Qed.

Lemma digits2_pos_le_53 (p : positive) :
  Zpos p < 2 ^ 53 -> Zpos (digits2_pos p) <= 53.
Proof.
  intros Hp.
  assert (H : forall q : positive,
             2 ^ (Zpos (digits2_pos q) - 1) <= Zpos q).
  { induction q as [q IH|q IH|]; cbn [digits2_pos].
    - rewrite Pos2Z.inj_succ.
      replace (Z.succ (Zpos (digits2_pos q)) - 1)
        with (Z.succ (Zpos (digits2_pos q) - 1)) by lia.
      rewrite Z.pow_succ_r by lia. lia.
    - rewrite Pos2Z.inj_succ.
      replace (Z.succ (Zpos (digits2_pos q)) - 1)
        with (Z.succ (Zpos (digits2_pos q) - 1)) by lia.
      rewrite Z.pow_succ_r by lia. lia.
    - simpl. lia. }
  specialize (H p).
  assert (Hlt : 2 ^ (Zpos (digits2_pos p) - 1) < 2 ^ 53) by lia.
  apply Z.pow_lt_mono_r_iff in Hlt; lia.
Qed.

(** A significand of 53 digits with an exponent in range is not rounded. *)
Lemma binary_round_aux_exact s (m : positive) e :
  Zpos (digits2_pos m) = 53 -> -1074 <= e <= 971 ->
  binary_round_aux prec emax s (Zpos m) e loc_Exact = S754_finite s m e.
Proof.
  intros Hd He. unfold binary_round_aux, shr_fexp.
  cbn [Zdigits2]. rewrite Hd.
  assert (Hf : fexp prec emax (53 + e) - e = 0)
    by (unfold fexp, emin, prec, emax; lia).
  rewrite Hf. cbn [shr shr_record_of_loc shr_m loc_of_shr_record
                   round_nearest_even Zdigits2].
  rewrite Hd, Hf. cbn [shr shr_record_of_loc shr_m].
  destruct (Z.leb_spec e (emax - prec)); [done|].
  unfold emax, prec in *. lia.
Qed.

(** Positive integers below 2^53 are numbers, exactly. *)
Lemma of_Z_small z :
  0 < z < 2 ^ 53 ->
  exists m e, of_Z z = S754_finite false m e
              /\ -52 <= e <= 0 /\ Zpos m = z * 2 ^ (- e).
Proof.
  intros Hz. destruct z as [|p|p]; [lia| |lia].
  unfold of_Z, binary_normalize, binary_round.
  pose proof (digits2_pos_le_53 p ltac:(lia)) as Hd.
  assert (0 < Zpos (digits2_pos p)) by lia.
  assert (Hf : fexp prec emax (Zpos (digits2_pos p) + 0)
               = Zpos (digits2_pos p) - 53)
    by (unfold fexp, emin, prec, emax; lia).
  rewrite Hf. unfold shl_align.
  destruct (Zpos (digits2_pos p) - 53 - 0) as [|k|k] eqn:Hk; [|lia|].
  - rewrite binary_round_aux_exact by lia.
    exists p, 0. split; [done|]. split; [lia|]. cbn. lia.
  - rewrite binary_round_aux_exact.
    + exists (Pos.iter xO p k), (Zpos (digits2_pos p) - 53).
      split; [done|]. split; [lia|].
      replace (- (Zpos (digits2_pos p) - 53)) with (Zpos k) by lia.
      clear. induction k as [|k IH] using Pos.peano_ind.
      * cbn [Pos.iter]. lia.
      * rewrite Pos.iter_succ, Pos2Z.inj_xO, IH, Pos2Z.inj_succ.
        rewrite Z.pow_succ_r by lia. lia.
    + rewrite digits2_pos_iter_xO. lia.
    + lia.
Qed.

Lemma of_Z_nat_finite (i : nat) :
  Z.of_nat i < 2 ^ 53 -> isFinite (of_Z (Z.of_nat i)) = true.
Proof.
  intros Hi. destruct (Z.eq_dec (Z.of_nat i) 0) as [->|Hne]; [done|].
  destruct (of_Z_small (Z.of_nat i)) as (m & e & -> & _); [lia|done].
Qed.
End Integers.

Section Signs.
Lemma binary_round_aux_sign s m e l :
  sign_or_nan s (binary_round_aux prec emax s m e l).
Proof.
  unfold binary_round_aux.
  destruct (shr_fexp prec emax m e l) as [mrs1 e1].
  match goal with
  | |- context [shr_fexp prec emax ?a e1 loc_Exact] =>
      destruct (shr_fexp prec emax a e1 loc_Exact) as [mrs2 e2]
  end.
  destruct (shr_m mrs2); [done| |done].
  by destruct (e2 <=? emax - prec).
Qed.

Lemma binary_normalize_sign (s : bool) (z : Z) :
  (if s then z <= 0 else 0 <= z) ->
  sign_or_nan s (binary_normalize prec emax z 0 s).
Proof.
  intros Hz. unfold binary_normalize, binary_round.
  destruct z as [|p|p]; [done| |].
  - destruct s; [lia|].
    destruct (shl_align _ _ _). apply binary_round_aux_sign.
  - destruct s; [|lia].
    destruct (shl_align _ _ _). apply binary_round_aux_sign.
Qed.

Lemma of_Z_sign z : 0 <= z -> sign_or_nan false (of_Z z).
Proof. apply (binary_normalize_sign false). Qed.

Lemma div_sign sx sy x y :
  sign_or_nan sx x -> sign_or_nan sy y ->
  sign_or_nan (xorb sx sy) (div x y).
Proof.
  unfold div, SFdiv.
  destruct x as [s1|s1| |s1 m1 e1], y as [s2|s2| |s2 m2 e2];
    cbn [sign_or_nan]; intros H1 H2; subst; try done.
  destruct (SFdiv_core_binary _ _ _ _ _ _) as [[mz ez] lz].
  apply binary_round_aux_sign.
Qed.

Lemma duration_sign buffer :
  0 < sampleRate buffer -> sign_or_nan false (duration buffer).
Proof.
  intros Hrate. unfold duration.
  apply (div_sign false false); apply of_Z_sign; lia.
Qed.

Lemma scale_ceil_nonpos (m : positive) e : scale_ceil (Zneg m) e <= 0.
Proof.
  unfold scale_ceil. destruct (Z.leb_spec 0 e).
  - assert (0 < 2 ^ e) by (apply Z.pow_pos_nonneg; lia). lia.
  - assert (0 < 2 ^ (- e)) by (apply Z.pow_pos_nonneg; lia).
    assert (0 <= - Zneg m / 2 ^ (- e)) by (apply Z.div_pos; lia). lia.
Qed.

Lemma Math_ceil_negative x :
  sign_or_nan true x -> sign_or_nan true (Math_ceil x).
Proof.
  destruct x as [s|s| |s m e]; cbn [sign_or_nan Math_ceil]; try done.
  intros ->. apply (binary_normalize_sign true). apply scale_ceil_nonpos.
Qed.

Lemma ltb_zero_negative x :
  sign_or_nan true x -> ltb (of_Z 0) x = false.
Proof.
  destruct x as [s|s| |s m e]; cbn [sign_or_nan]; try done;
    intros ->; reflexivity.
Qed.

(** No iteration is made when the chunk duration is negative or NaN. *)
Lemma negative_duration_no_loop buffer d :
  0 < sampleRate buffer -> sign_or_nan true d ->
  ltb (of_Z (Z.of_nat 0)) (totalChunks buffer d) = false.
Proof.
  intros Hrate Hd. apply ltb_zero_negative.
  unfold totalChunks, totalDuration. apply Math_ceil_negative.
  apply (div_sign false true); [by apply duration_sign|done].
Qed.
End Signs.

Section ZeroChunkDuration.
Variable fileName : string.
Variable decodedBuffer : AudioBuffer.
Hypothesis Hpositive : ltb (of_Z 0) (duration decodedBuffer) = true.

Lemma totalChunks_zero_duration :
  totalChunks decodedBuffer (S754_zero false) = S754_infinity false.
Proof.
  unfold totalChunks, totalDuration.
  destruct (duration decodedBuffer) as [s|s| |s m e]; try discriminate;
    destruct s; try discriminate; reflexivity.
Qed.

Lemma degenerate_zero_duration i :
  isFinite (of_Z (Z.of_nat i)) = true ->
  degenerate decodedBuffer (S754_zero false) i = true.
Proof.
  intros Hfin. unfold degenerate, endTime, startTime, totalDuration.
  destruct (duration decodedBuffer) as [s|s| |s m e]; try discriminate;
    destruct s; try discriminate;
    destruct (of_Z (Z.of_nat i)) as [si|si| |si mi ei]; try discriminate;
    destruct si; reflexivity.
Qed.

Lemma chunkLoop_zero_duration fuel : forall i log chunks,
  Z.of_nat (i + fuel) <= 2 ^ 53 ->
  chunkLoop fileName decodedBuffer (S754_zero false) fuel i log chunks
  = Pending.
Proof.
  induction fuel as [|fuel IH]; intros i log chunks Hi; [done|].
  cbn [chunkLoop]. rewrite totalChunks_zero_duration.
  assert (Hfin : isFinite (of_Z (Z.of_nat i)) = true)
    by (apply of_Z_nat_finite; lia).
  assert (Hlt : ltb (of_Z (Z.of_nat i)) (S754_infinity false) = true).
  { destruct (of_Z (Z.of_nat i)) as [si|si| |si mi ei]; try discriminate;
      reflexivity. }
  rewrite Hlt.
  assert (Hit : iteration fileName decodedBuffer (S754_zero false) i chunks
                = Ok chunks).
  { pose proof (degenerate_zero_duration i Hfin) as Hdeg.
    unfold degenerate in Hdeg. unfold iteration.
    destruct (leb (endTime decodedBuffer (S754_zero false) i)
                  (startTime (S754_zero false) i)); [done|].
    cbn [orb] in Hdeg. by rewrite Hdeg. }
  rewrite Hit. rewrite <- totalChunks_zero_duration. apply IH. lia.
Qed.
End ZeroChunkDuration.

(* ===================================================================== *)
(** ** The shape of the chunks *)
(* ===================================================================== *)

Section Shape.
Variable fileName : string.
Variable decodedBuffer : AudioBuffer.
Variable d : number.

Lemma for_from_invariant {St : Type} (P : St -> Prop)
    (body : nat -> St -> result St) n : forall i s s',
  (forall j t t', body j t = Ok t' -> P t -> P t') ->
  for_from i n body s = Ok s' -> P s -> P s'.
Proof.
  induction n as [|n IH]; intros i s s' Hbody; cbn [for_from].
  - by intros [= <-].
  - destruct (body i s) as [t|] eqn:Hstep; cbn [mbind result_bind]; [|done].
    intros Hrun Hs. eapply IH; [exact Hbody|exact Hrun|]. by eapply Hbody.
Qed.


Lemma copyChannel_shape b0 i channel b b' :
  copyChannel decodedBuffer d i channel b = Ok b' ->
  same_shape b0 b -> same_shape b0 b'.
Proof.
  unfold copyChannel. cbv zeta.
  destruct (typedArray_set _ _) as [copied|]; cbn [mbind result_bind]; [|done].
  intros [= <-] (H1 & H2 & H3). unfold same_shape, numberOfChannels in *.
  cbn [sampleRate frames channelData]. by rewrite length_insert.
Qed.

Lemma iteration_shape i chunks chunks' :
  degenerate decodedBuffer d i = false ->
  iteration fileName decodedBuffer d i chunks = Ok chunks' ->
  exists b,
    chunks' = chunks ++ [{| name := chunkName fileName (i + 1);
                            blob := wavBlob b |}]
    /\ sampleRate b = sampleRate decodedBuffer
    /\ numberOfChannels b = numberOfChannels decodedBuffer
    /\ (0 < numberOfChannels b)%nat /\ (0 < frames b)%nat.
Proof.
  unfold degenerate, iteration. intros H.
  apply orb_false_elim in H as [-> ->].
  unfold createBuffer. cbv zeta.
  destruct (Nat.eqb_spec (numberOfChannels decodedBuffer) 0) as [|Hch];
    [done|].
  destruct (Nat.eqb_spec (Z.to_nat (ToUint32 (frameCount decodedBuffer d i))) 0)
    as [|Hlen]; [done|].
  cbn [orb mbind result_bind].
  set (b0 := {| sampleRate := sampleRate decodedBuffer;
                frames := Z.to_nat (ToUint32 (frameCount decodedBuffer d i));
                channelData := replicate (numberOfChannels decodedBuffer)
                  (replicate (Z.to_nat (ToUint32 (frameCount decodedBuffer d i)))
                             (of_Z 0)) |}).
  destruct (for_ _ _ b0) as [b1|] eqn:Hloop; cbn [mbind result_bind]; [|done].
  rewrite audioBufferToWav_wavBlob. cbn [mbind result_bind mret result_ret].
  intros [= <-]. exists b1. split; [done|].
  assert (Hshape : same_shape b0 b1).
  { unfold for_ in Hloop.
    eapply (for_from_invariant (same_shape b0)); [|exact Hloop|done].
    intros j t t'. apply copyChannel_shape. }
  destruct Hshape as (H1 & H2 & H3).
  assert (H4 : numberOfChannels b0 = numberOfChannels decodedBuffer)
    by (unfold numberOfChannels, b0; cbn [channelData];
        by rewrite length_replicate).
  rewrite H1, H2, H3, H4. unfold b0. cbn [sampleRate frames].
  repeat split; lia.
Qed.

(** A property of chunks that every iteration keeps holds for the chunks
    of a run that resolves. *)
Lemma chunkLoop_Forall (P : EncodedChunk -> Prop) :
  (forall i chunks chunks',
     iteration fileName decodedBuffer d i chunks = Ok chunks' ->
     Forall P chunks -> Forall P chunks') ->
  forall fuel i log chunks log' chunks',
    chunkLoop fileName decodedBuffer d fuel i log chunks
    = Resolved log' chunks' ->
    Forall P chunks -> Forall P chunks'.
Proof.
  intros Hit. induction fuel as [|fuel IH];
    intros i log chunks log' chunks'; [done|].
  cbn [chunkLoop].
  destruct (ltb _ _).
  - destruct (iteration _ _ _ i chunks) as [chunks1|] eqn:Hone; [|done].
    intros Hrun HP. eapply IH; [exact Hrun|]. by eapply Hit.
  - by intros [= <- <-].
Qed.
End Shape.

(* ===================================================================== *)
(** ** Saturation, bytes and names *)
(* ===================================================================== *)

Section Bytes.
Lemma bytes16_range v : Forall (fun b => 0 <= b < 256) (bytes16 v).
Proof.
  unfold bytes16.
  pose proof (Z.mod_pos_bound v (2 ^ 16) ltac:(lia)) as Hu.
  set (u := v mod 2 ^ 16) in *.
  repeat constructor.
  - apply Z.mod_pos_bound; lia.
  - apply Z.mod_pos_bound; lia.
  - apply Z.div_pos; lia.
  - apply Z.div_lt_upper_bound; lia.
Qed.

Lemma bytes32_range v : Forall (fun b => 0 <= b < 256) (bytes32 v).
Proof.
  unfold bytes32.
  pose proof (Z.mod_pos_bound v (2 ^ 32) ltac:(lia)) as Hu.
  set (u := v mod 2 ^ 32) in *.
  repeat constructor; try (apply Z.mod_pos_bound; lia).
  - apply Z.div_pos; lia.
  - apply Z.div_lt_upper_bound; lia.
Qed.

Lemma Forall_flat_map_blocks {A} (P : Z -> Prop) (f : A -> list Z) l :
  (forall x, Forall P (f x)) -> Forall P (flat_map f l).
Proof.
  intros Hf. induction l as [|x l IH]; [constructor|].
  cbn [flat_map]. apply Forall_app. by split.
Qed.

Lemma pcmBytes_range buffer :
  Forall (fun b => 0 <= b < 256) (pcmBytes buffer).
Proof.
  unfold pcmBytes, frameBytes.
  apply Forall_flat_map_blocks. intros i.
  apply Forall_flat_map_blocks. intros c. apply bytes16_range.
Qed.

Lemma headerBytes_range buffer :
  Forall (fun b => 0 <= b < 256) (headerBytes buffer).
Proof.
  unfold headerBytes.
  repeat (apply Forall_app; split);
    try apply bytes32_range; try apply bytes16_range;
    (vm_compute; repeat constructor; discriminate).
Qed.
End Bytes.

Section Names.
Lemma list_of_append a b :
  list_ascii_of_string (a +:+ b)
  = list_ascii_of_string a ++ list_ascii_of_string b.
Proof.
  induction a as [|x a IH]; [done|].
  change (String x a +:+ b) with (String x (a +:+ b)).
  cbn [list_ascii_of_string app]. by rewrite IH.
Qed.

Lemma list_ascii_of_string_inj a b :
  list_ascii_of_string a = list_ascii_of_string b -> a = b.
Proof.
  intros H. rewrite <- (string_of_list_ascii_of_string a),
    <- (string_of_list_ascii_of_string b). by rewrite H.
Qed.

Lemma append_inv_head a b c : a +:+ b = a +:+ c -> b = c.
Proof.
  intros H. apply list_ascii_of_string_inj.
  apply (f_equal list_ascii_of_string) in H.
  rewrite !list_of_append in H. by apply app_inv_head in H.
Qed.

Lemma append_inv_tail a b c : a +:+ c = b +:+ c -> a = b.
Proof.
  intros H. apply list_ascii_of_string_inj.
  apply (f_equal list_ascii_of_string) in H.
  rewrite !list_of_append in H. by apply app_inv_tail in H.
Qed.


Lemma uint_of_string_zeros n str :
  NilEmpty.uint_of_string (zeros n +:+ str)
  = Nat.iter n Decimal.D0 <$> NilEmpty.uint_of_string str.
Proof.
  induction n as [|n IH].
  - change (zeros 0 +:+ str) with str.
    by destruct (NilEmpty.uint_of_string str).
  - change (zeros (S n) +:+ str) with (String "0" (zeros n +:+ str)).
    cbn [NilEmpty.uint_of_string]. rewrite IH.
    destruct (NilEmpty.uint_of_string str); reflexivity.
Qed.

Lemma of_uint_leading_zeros n u :
  Nat.of_uint (Nat.iter n Decimal.D0 u) = Nat.of_uint u.
Proof. induction n as [|n IH]; [done|]. cbn [Nat.iter]. exact IH. Qed.

Lemma parseNumber_padStart0 target k :
  parseNumber (padStart0 target (String_of k)) = Some k.
Proof.
  unfold parseNumber, padStart0, String_of.
  rewrite uint_of_string_zeros, NilEmpty.usu. cbn [fmap option_fmap option_map].
  by rewrite of_uint_leading_zeros, Unsigned.of_to.
Qed.

Lemma chunkName_inj fileName k k' :
  chunkName fileName k = chunkName fileName k' -> k = k'.
Proof.
  unfold chunkName. intros H.
  do 2 apply append_inv_head in H. apply append_inv_tail in H.
  apply (f_equal parseNumber) in H.
  rewrite !parseNumber_padStart0 in H. by injection H.
Qed.
End Names.

(* ===================================================================== *)
(** ** The file queue *)
(* ===================================================================== *)

Section FileQueue.
Implicit Types prevFiles newFiles : list File.

Lemma handleFilesAdd_names prevFiles newFiles f :
  f ∈ newFiles ->
  file_name f ∈ file_name <$> handleFilesAdd prevFiles newFiles.
Proof.
  intros Hin. unfold handleFilesAdd. cbv zeta. rewrite fmap_app.
  apply elem_of_app.
  destruct (decide (file_name f ∈ file_name <$> prevFiles)) as [Hold|Hnew];
    [by left|right].
  apply list_elem_of_fmap. exists f. split; [done|].
  apply list_elem_of_filter. split; [|done].
  by rewrite elem_of_list_to_set.
Qed.

Lemma filter_none {A} (P : A -> Prop) `{!forall x, Decision (P x)} (l : list A) :
  Forall (fun x => ~ P x) l -> filter P l = [].
Proof.
  induction 1 as [|x l Hx _ IH]; [done|].
  by rewrite filter_cons_False.
Qed.
End FileQueue.

(* ===================================================================== *)
(** ** Further properties of the program *)
(* ===================================================================== *)

(** X1.  [splitAudioFile], a file longer than a positive chunk size: it
    is cut into ceil(size / chunkSize) slices, none of them empty, each of
    the MIME type of the file. *)
Theorem splitAudioFile_count (file : File) (chunkSizeInBytes : Z)
    (fuel : nat) :
  0 < chunkSizeInBytes ->
  chunkSizeInBytes < size (file_blob file) ->
  (length (blob_bytes (file_blob file)) < fuel)%nat ->
  exists chunks,
    splitAudioFile fuel file chunkSizeInBytes = Some chunks
    /\ Z.of_nat (length chunks)
       = (size (file_blob file) + chunkSizeInBytes - 1) / chunkSizeInBytes
    /\ Forall (fun c => 0 < size c
                        /\ blob_type c = blob_type (file_blob file)) chunks.
Proof.
  intros Hpos Hlong Hfuel. unfold splitAudioFile.
  destruct (Z.leb_spec (size (file_blob file)) chunkSizeInBytes); [lia|].
  destruct (splitLoop_count (file_blob file) chunkSizeInBytes fuel 0 [] Hpos)
    as (rest & Hrun & Hcount); [unfold size; lia..|].
  destruct (splitLoop_spec (file_blob file) chunkSizeInBytes Hpos fuel 0 [])
    as (rest' & Hrun' & _ & Hsz & _); [unfold size; lia..|].
  rewrite Hrun in Hrun'. injection Hrun' as <-.
  exists rest. split; [exact Hrun|]. split.
  - rewrite Hcount. f_equal. lia.
  - apply Forall_lookup. intros i c Hc.
    destruct (Hsz i c Hc) as (H1 & H2 & _). split; [lia|exact H2].
Qed.

Lemma splitAudioFile_count_witness :
  exists chunks,
    splitAudioFile 8 sample_file 3 = Some chunks
    /\ Z.of_nat (length chunks) = 3.
Proof.
  destruct (splitAudioFile_count sample_file 3 8) as (chunks & H1 & H2 & _).
  - lia.
  - reflexivity.
  - cbn. lia.
  - exists chunks. split; [exact H1|]. rewrite H2. reflexivity.
Defined.

(** X2.  [splitAudioFile], a chunk size of zero or below and a file that
    is not empty: the loop never ends, because [start] does not grow. *)
Theorem splitAudioFile_never_returns (file : File) (chunkSizeInBytes : Z)
    (fuel : nat) :
  chunkSizeInBytes <= 0 -> 0 < size (file_blob file) ->
  splitAudioFile fuel file chunkSizeInBytes = None.
Proof.
  intros Hcs Hsize. unfold splitAudioFile.
  destruct (Z.leb_spec (size (file_blob file)) chunkSizeInBytes); [lia|].
  apply splitLoop_stuck; lia.
Qed.

Lemma splitAudioFile_never_returns_witness :
  splitAudioFile 1000 sample_file 0 = None.
Proof.
  apply (splitAudioFile_never_returns sample_file 0 1000).
  - lia.
  - reflexivity.
Defined.

(** X3.  [audioBufferToWav]: the two size fields of the header agree with
    the length of the blob, when the blob is shorter than 2^32 bytes: the
    RIFF chunk size is the length less 8, the data size the length less
    44. *)
Theorem wav_sizes_consistent (buffer : AudioBuffer) :
  44 + Z.of_nat (frames buffer) * Z.of_nat (numberOfChannels buffer) * 2
  < 2 ^ 32 ->
  exists bytes,
    audioBufferToWav buffer
    = Ok {| blob_bytes := bytes; blob_type := "audio/wav" |}
    /\ le_combine (field bytes 4 4) + 8 = Z.of_nat (length bytes)
    /\ le_combine (field bytes 40 4) + 44 = Z.of_nat (length bytes).
Proof.
  intros Hfit. exists (headerBytes buffer ++ pcmBytes buffer).
  split; [apply audioBufferToWav_wavBlob|].
  rewrite !field_wav_header by lia.
  rewrite length_app, length_headerBytes, length_pcmBytes.
  assert (Hsize : Z.of_nat (dataSizeOf buffer)
                  = Z.of_nat (frames buffer)
                    * Z.of_nat (numberOfChannels buffer) * 2)
    by (unfold dataSizeOf; lia).
  split.
  - change (field (headerBytes buffer) 4 4)
      with (bytes32 (36 + Z.of_nat (dataSizeOf buffer))).
    rewrite le_combine_bytes32, Z.mod_small; lia.
  - change (field (headerBytes buffer) 40 4)
      with (bytes32 (Z.of_nat (dataSizeOf buffer))).
    rewrite le_combine_bytes32, Z.mod_small; lia.
Qed.

Lemma wav_sizes_consistent_witness :
  exists bytes,
    audioBufferToWav stereo2
    = Ok {| blob_bytes := bytes; blob_type := "audio/wav" |}
    /\ le_combine (field bytes 4 4) + 8 = Z.of_nat (length bytes).
Proof.
  destruct (wav_sizes_consistent stereo2) as (bytes & H1 & H2 & _).
  - vm_compute. reflexivity.
  - exists bytes. split; [exact H1|exact H2].
Defined.

(** X4.  [audioBufferToWav]: every element of the blob is a byte. *)
Theorem wav_bytes_in_range (buffer : AudioBuffer) :
  exists bytes,
    audioBufferToWav buffer
    = Ok {| blob_bytes := bytes; blob_type := "audio/wav" |}
    /\ Forall (fun b => 0 <= b < 256) bytes.
Proof.
  exists (headerBytes buffer ++ pcmBytes buffer).
  split; [apply audioBufferToWav_wavBlob|].
  apply Forall_app. split; [apply headerBytes_range|apply pcmBytes_range].
Qed.

(** X5.  [audioBufferToWav], the quantization saturates: a sample of 1 or
    above (plus infinity included) is stored as 32767, a sample of -1 or
    below (minus infinity included) as -32768; NaN and the two zeros are
    stored as 0. *)
Theorem quantize_saturates (s : number) :
  (leb (of_Z 1) s = true -> ToInt16 (intSample s) = 32767)
  /\ (leb s (of_Z (-1)) = true -> ToInt16 (intSample s) = -32768)
  /\ (s = S754_nan \/ (exists sg, s = S754_zero sg) ->
      ToInt16 (intSample s) = 0).
Proof.
  split; [|split].
  - intros H. unfold intSample. rewrite (clampedSample_above s H).
    vm_compute. reflexivity.
  - intros H. unfold intSample. rewrite (clampedSample_below s H).
    vm_compute. reflexivity.
  - intros [->|[sg ->]]; [reflexivity|]. destruct sg; reflexivity.
Qed.

Lemma quantize_saturates_witness :
  leb (of_Z 1) one_and_a_half = true
  /\ ToInt16 (intSample one_and_a_half) = 32767
  /\ ToInt16 (intSample (S754_infinity true)) = -32768.
Proof.
  split; [reflexivity|]. split.
  - apply (quantize_saturates one_and_a_half). reflexivity.
  - apply (quantize_saturates (S754_infinity true)). reflexivity.
Defined.

Section Format.
Variable fileName : string.
Variable decodedBuffer : AudioBuffer.
Variable d : number.

(** Every chunk of a run that resolves encodes a buffer of the sample rate
    and the channels of the decoded one, with a frame at least. *)
Lemma chunkLoop_format fuel i log chunks log' chunks' :
  chunkLoop fileName decodedBuffer d fuel i log chunks
  = Resolved log' chunks' ->
  Forall (fun c => exists b, blob c = wavBlob b
                             /\ sampleRate b = sampleRate decodedBuffer
                             /\ numberOfChannels b
                                = numberOfChannels decodedBuffer
                             /\ (0 < numberOfChannels b)%nat
                             /\ (0 < frames b)%nat) chunks ->
  Forall (fun c => exists b, blob c = wavBlob b
                             /\ sampleRate b = sampleRate decodedBuffer
                             /\ numberOfChannels b
                                = numberOfChannels decodedBuffer
                             /\ (0 < numberOfChannels b)%nat
                             /\ (0 < frames b)%nat) chunks'.
Proof.
  apply chunkLoop_Forall. clear. intros i chunks chunks' Hit Hall.
  destruct (degenerate decodedBuffer d i) eqn:Hdeg.
  - rewrite iteration_degenerate in Hit by exact Hdeg.
    injection Hit as <-. exact Hall.
  - destruct (iteration_shape _ _ _ _ _ _ Hdeg Hit)
      as (b & -> & Hrate & Hch & Hpos & Hfr).
    apply Forall_app. split; [exact Hall|].
    apply Forall_cons. split; [|constructor].
    exists b. cbn [blob].
    split; [reflexivity|]. split; [exact Hrate|].
    split; [exact Hch|]. split; assumption.
Qed.
End Format.

Lemma relativeIndex_le x len : (relativeIndex x len <= len)%nat.
Proof.
  assert (H : forall t, (clampIndex t len <= len)%nat).
  { intros t. unfold clampIndex. destruct (Z.ltb_spec t 0); lia. }
  unfold relativeIndex. destruct x as [s|s| |s m e]; try apply H.
  destruct s; lia.
Qed.

Lemma pcmSample_chunkBufferOf decoded so eo j c :
  (j < eo - so)%nat -> (c < numberOfChannels decoded)%nat ->
  pcmSample (chunkBufferOf decoded so eo) j c = pcmSample decoded (so + j) c.
Proof.
  intros Hj Hc. unfold pcmSample. do 2 f_equal.
  unfold getChannelData, chunkBufferOf, sampleAt. cbn [channelData].
  unfold numberOfChannels in Hc.
  destruct (lookup_lt_is_Some_2 _ _ Hc) as [data Hdata].
  rewrite (nth_lookup_Some _ _ _ _ Hdata).
  rewrite (nth_lookup_Some (map _ _) c [] (take (eo - so) (drop so data)))
    by (rewrite list_lookup_fmap, Hdata; reflexivity).
  rewrite !nth_lookup. rewrite lookup_take_lt by exact Hj.
  rewrite lookup_drop. reflexivity.
Qed.

(** X6.  [processAndSplitAudio]: every chunk of a run that resolves is a
    WAV blob of the sample rate and of the channel count of the decoded
    buffer, with one channel and one frame at least, of 44 bytes and two
    more for every sample. *)
Theorem chunks_keep_format (fileName : string) (decodedBuffer : AudioBuffer)
    (d : number) (fuel : nat) (log : list progress)
    (chunks : list EncodedChunk) :
  processAndSplitAudio fileName decodedBuffer d fuel = Resolved log chunks ->
  Forall (fun c =>
    exists b,
      blob c = wavBlob b
      /\ sampleRate b = sampleRate decodedBuffer
      /\ numberOfChannels b = numberOfChannels decodedBuffer
      /\ (0 < numberOfChannels b)%nat /\ (0 < frames b)%nat
      /\ blob_type (blob c) = "audio/wav"
      /\ length (blob_bytes (blob c))
         = (44 + frames b * numberOfChannels b * 2)%nat) chunks.
Proof.
  intros Hrun. unfold processAndSplitAudio in Hrun.
  apply chunkLoop_format in Hrun; [|constructor].
  eapply Forall_impl; [exact Hrun|]. clear.
  intros c (b & Hb & Hrate & Hch & Hpos & Hfr).
  exists b. split; [exact Hb|]. split; [exact Hrate|].
  split; [exact Hch|]. split; [exact Hpos|]. split; [exact Hfr|].
  rewrite Hb. split; [reflexivity|]. unfold wavBlob. cbn [blob_bytes].
  rewrite length_app, length_headerBytes, length_pcmBytes. reflexivity.
Qed.

Lemma chunks_keep_format_witness :
  exists b,
    wavBlob (mono 44100 (silence 14)) = wavBlob b
    /\ sampleRate b = 44100
    /\ length (blob_bytes (wavBlob (mono 44100 (silence 14)))) = 72%nat.
Proof.
  assert (Hrun :
    processAndSplitAudio "audio.mp3" (mono 44100 (silence 15)) (of_Z 180) 2
    = Resolved [Decodificando; Procesando 1 (of_Z 1)]
        [{| name := "audio_parte_01.wav";
            blob := wavBlob (mono 44100 (silence 14)) |}])
    by (vm_compute; reflexivity).
  pose proof (chunks_keep_format _ _ _ _ _ _ Hrun) as Hall.
  apply Forall_cons in Hall as [(b & Hb & Hrate & _) _].
  exists b. cbn [blob] in Hb. split; [exact Hb|]. split; [exact Hrate|].
  reflexivity.
Defined.

(** X8.  [processAndSplitAudio], an iteration that is not skipped, on a
    decoded buffer with a channel at least and one sample per frame in each:
    with [so] and [eo] the indices that [subarray] makes of [startOffset]
    and [endOffset], and [frameCount] equal to [eo - so], the chunk is the
    WAV blob whose sample of frame [j] and channel [c] is the stored value
    of the sample of frame [so + j] of channel [c] of the decoded buffer. *)
Theorem chunk_samples_are_window (fileName : string)
    (decodedBuffer : AudioBuffer) (d : number) (i so eo : nat)
    (chunks : list EncodedChunk) :
  wf_buffer decodedBuffer ->
  (0 < numberOfChannels decodedBuffer)%nat ->
  degenerate decodedBuffer d i = false ->
  relativeIndex (startOffset decodedBuffer d i) (frames decodedBuffer) = so ->
  relativeIndex (endOffset decodedBuffer d i) (frames decodedBuffer) = eo ->
  (so < eo)%nat ->
  Z.to_nat (ToUint32 (frameCount decodedBuffer d i)) = (eo - so)%nat ->
  exists bytes,
    iteration fileName decodedBuffer d i chunks
    = Ok (chunks ++ [{| name := chunkName fileName (i + 1);
                        blob := {| blob_bytes := bytes;
                                   blob_type := "audio/wav" |} |}])
    /\ length bytes
       = (44 + (eo - so) * numberOfChannels decodedBuffer * 2)%nat
    /\ forall j c,
         (j < eo - so)%nat -> (c < numberOfChannels decodedBuffer)%nat ->
         int16_of
           (field bytes (44 + 2 * (j * numberOfChannels decodedBuffer + c)) 2)
         = pcmSample decodedBuffer (so + j) c.
Proof.
  intros Hwf Hch Hdeg Hso Heo Hlt Hcount.
  assert (Hle : (eo <= frames decodedBuffer)%nat)
    by (rewrite <- Heo; apply relativeIndex_le).
  set (b := chunkBufferOf decodedBuffer so eo).
  assert (Hchb : numberOfChannels b = numberOfChannels decodedBuffer)
    by (unfold b, chunkBufferOf, numberOfChannels; cbn [channelData];
        apply length_map).
  exists (headerBytes b ++ pcmBytes b). split; [|split].
  - apply (iteration_window fileName decodedBuffer d i so eo
             Hwf Hso Heo Hle Hch Hdeg Hcount Hlt).
  - rewrite length_app, length_headerBytes, length_pcmBytes.
    unfold dataSizeOf. rewrite Hchb. reflexivity.
  - intros j c Hj Hc. rewrite <- Hchb.
    rewrite field_wav_pcm, field_pcmBytes
      by (rewrite ?Hchb; assumption).
    rewrite int16_of_bytes16 by apply ToInt16_range.
    apply pcmSample_chunkBufferOf; assumption.
Qed.

Lemma chunk_samples_are_window_witness :
  exists bytes,
    iteration "a.b.mp3" stereo2 (of_Z 180) 0 []
    = Ok [{| name := "a.b_parte_01.wav";
             blob := {| blob_bytes := bytes; blob_type := "audio/wav" |} |}]
    /\ length bytes = 52%nat
    /\ int16_of (field bytes 50 2) = pcmSample stereo2 1 1.
Proof.
  destruct (chunk_samples_are_window "a.b.mp3" stereo2 (of_Z 180) 0 0 2 [])
    as (bytes & Hit & Hlen & Hsample).
  - repeat constructor.
  - cbn. lia.
  - vm_compute. reflexivity.
  - vm_compute. reflexivity.
  - vm_compute. reflexivity.
  - lia.
  - vm_compute. reflexivity.
  - exists bytes. split; [exact Hit|]. split; [exact Hlen|].
    apply (Hsample 1%nat 1%nat); cbn; lia.
Defined.

(** X9.  [processAndSplitAudio] with a chunk duration that is negative,
    minus zero or NaN, at a positive sample rate: [totalChunks] is not
    above zero, the loop body never runs and the run resolves with no
    chunk, after the decoding message alone. *)
Theorem negative_chunk_duration_empty (fileName : string)
    (decodedBuffer : AudioBuffer) (d : number) (fuel : nat) :
  0 < sampleRate decodedBuffer -> sign_or_nan true d ->
  processAndSplitAudio fileName decodedBuffer d (S fuel)
  = Resolved [Decodificando] [].
Proof.
  intros Hrate Hd. unfold processAndSplitAudio.
  apply chunkLoop_exit. apply negative_duration_no_loop; assumption.
Qed.

Lemma negative_chunk_duration_empty_witness :
  processAndSplitAudio "audio.mp3" (mono 44100 (silence 15)) (of_Z (-180)) 1
  = Resolved [Decodificando] [].
Proof.
  apply (negative_chunk_duration_empty "audio.mp3" (mono 44100 (silence 15))
           (of_Z (-180)) 0).
  - reflexivity.
  - reflexivity.
Defined.

(** X10.  [processAndSplitAudio] with a chunk duration of zero and a
    decoded buffer of positive duration: [totalChunks] is infinite and
    every iteration is skipped, so that the run neither resolves nor is
    rejected, however many iterations (up to 2^53) are made. *)
Theorem zero_chunk_duration_never_settles (fileName : string)
    (decodedBuffer : AudioBuffer) (fuel : nat) :
  ltb (of_Z 0) (duration decodedBuffer) = true ->
  Z.of_nat fuel <= 2 ^ 53 ->
  totalChunks decodedBuffer (S754_zero false) = S754_infinity false
  /\ processAndSplitAudio fileName decodedBuffer (S754_zero false) fuel
     = Pending.
Proof.
  intros Hpos Hfuel. split.
  - apply totalChunks_zero_duration. exact Hpos.
  - unfold processAndSplitAudio.
    apply chunkLoop_zero_duration; [exact Hpos|exact Hfuel].
Qed.

Lemma zero_chunk_duration_never_settles_witness :
  processAndSplitAudio "audio.mp3" (mono 44100 (silence 15)) (of_Z 0) 1000
  = Pending.
Proof.
  apply (zero_chunk_duration_never_settles "audio.mp3"
           (mono 44100 (silence 15)) 1000).
  - reflexivity.
  - apply Z.leb_le. reflexivity.
Defined.

(** X11.  [processAndSplitAudio]: the chunks of a run that resolves have
    names that differ from one another. *)
Theorem chunk_names_distinct (fileName : string)
    (decodedBuffer : AudioBuffer) (d : number) (fuel : nat)
    (log : list progress) (chunks : list EncodedChunk) :
  processAndSplitAudio fileName decodedBuffer d fuel = Resolved log chunks ->
  NoDup (map name chunks).
Proof.
  intros Hrun. unfold processAndSplitAudio in Hrun.
  apply chunkLoop_resolved in Hrun as (n & _ & Hnames & _).
  rewrite Hnames. cbn [map app].
  apply NoDup_fmap_2_strong.
  - intros j k _ _ Heq. apply chunkName_inj in Heq. lia.
  - apply NoDup_filter, NoDup_seq.
Qed.

Lemma chunk_names_distinct_witness :
  NoDup ["audio_parte_01.wav"; "audio_parte_02.wav"; "audio_parte_03.wav"]%string.
Proof.
  apply (chunk_names_distinct "audio.mp3" (mono 8 (silence 20)) (of_Z 1) 4
           [Decodificando; Procesando 1 (of_Z 3); Procesando 2 (of_Z 3);
            Procesando 3 (of_Z 3)]
           [{| name := "audio_parte_01.wav";
               blob := wavBlob (mono 8 (silence 8)) |};
            {| name := "audio_parte_02.wav";
               blob := wavBlob (mono 8 (silence 8)) |};
            {| name := "audio_parte_03.wav";
               blob := wavBlob (mono 8 (silence 4)) |}]).
  vm_compute. reflexivity.
Defined.

Lemma beforeFirstDot_stem stem rest :
  ~ In "."%char (list_ascii_of_string stem) ->
  beforeFirstDot (stem +:+ String "." rest) = stem.
Proof.
  induction stem as [|c stem IH]; intros Hdot.
  - reflexivity.
  - change (String c stem +:+ String "." rest)
      with (String c (stem +:+ String "." rest)).
    cbn [beforeFirstDot]. cbn [list_ascii_of_string In] in Hdot.
    destruct (Ascii.eqb_spec c ".") as [->|_]; [tauto|].
    rewrite IH by tauto. reflexivity.
Qed.

(** X12.  [handleFilesAdd]: adding the same files a second time changes
    nothing. *)
Theorem handleFilesAdd_again (prevFiles newFiles : list File) :
  handleFilesAdd (handleFilesAdd prevFiles newFiles) newFiles
  = handleFilesAdd prevFiles newFiles.
Proof.
  unfold handleFilesAdd at 1. cbv zeta.
  rewrite filter_none; [by rewrite app_nil_r|].
  apply Forall_forall. intros f Hin Hnot. apply Hnot.
  rewrite elem_of_list_to_set. by apply handleFilesAdd_names.
Qed.

(** X13.  [handleFilesAdd]: when the names of the queue differ from one
    another and so do the names of the files added, the names of the new
    queue differ from one another. *)
Theorem handleFilesAdd_NoDup (prevFiles newFiles : list File) :
  NoDup (file_name <$> prevFiles) -> NoDup (file_name <$> newFiles) ->
  NoDup (file_name <$> handleFilesAdd prevFiles newFiles).
Proof.
  intros Hprev Hnew. unfold handleFilesAdd. cbv zeta. rewrite fmap_app.
  apply NoDup_app. split; [done|]. split.
  - intros n Hn Hn'. apply list_elem_of_fmap in Hn' as (f & -> & Hf).
    apply list_elem_of_filter in Hf as [Hf _]. apply Hf.
    by rewrite elem_of_list_to_set.
  - assert (Hsub :
      file_name <$> filter (fun f => file_name f ∉
          (list_to_set (file_name <$> prevFiles) : gset string)) newFiles
      `sublist_of` file_name <$> newFiles)
      by apply fmap_sublist, sublist_filter.
    eapply sublist_NoDup; eassumption.
Qed.

Lemma handleFilesAdd_NoDup_witness :
  NoDup (file_name <$> handleFilesAdd [sample_file]
           [sample_file;
            {| file_name := "otra.mp3"; file_blob := file_blob sample_file |}]).
Proof.
  apply (handleFilesAdd_NoDup [sample_file]
           [sample_file;
            {| file_name := "otra.mp3"; file_blob := file_blob sample_file |}]).
  - apply NoDup_singleton.
  - apply NoDup_cons. split; [|apply NoDup_singleton].
    intros Hin. apply list_elem_of_singleton in Hin. discriminate Hin.
Defined.

(** X14.  [handleFilesAdd]: names are compared with the names of the
    queue only, not with one another: on an empty queue all the files
    added are kept, two of the same name included. *)
Theorem handleFilesAdd_empty_queue (newFiles : list File) :
  handleFilesAdd [] newFiles = newFiles.
Proof.
  unfold handleFilesAdd. cbv zeta. cbn [fmap list_fmap app].
  induction newFiles as [|f newFiles IH]; [reflexivity|].
  rewrite filter_cons_True by (rewrite list_to_set_nil; apply not_elem_of_empty).
  by rewrite IH.
Qed.

(** X15.  [handleDownloadAllChunks]: the archive is named after what stands
    before the first dot of the file name, and "trozos" when that is empty
    or when there is no file; the chunks are named after what stands
    before the last dot. *)
Theorem zipName_first_dot (f : File) (stem rest : string) :
  file_name f = stem +:+ String "." rest ->
  ~ In "."%char (list_ascii_of_string stem) ->
  zipName (Some f) = or_else stem "trozos" +:+ ".zip"
  /\ zipName None = "trozos.zip"
  /\ (stem <> EmptyString ->
      ~ In "."%char (list_ascii_of_string rest) ->
      zipName (Some f) = originalFileName (file_name f) +:+ ".zip").
Proof.
  intros Hname Hdot.
  assert (Hzip : zipName (Some f) = or_else stem "trozos" +:+ ".zip").
  { unfold zipName. cbn [from_option]. rewrite Hname.
    rewrite beforeFirstDot_stem by exact Hdot. reflexivity. }
  split; [exact Hzip|]. split; [reflexivity|].
  intros Hstem Hrest. rewrite Hzip, Hname.
  rewrite originalFileName_stem by assumption.
  destruct stem; [congruence|reflexivity].
Qed.

Lemma zipName_first_dot_witness :
  zipName (Some {| file_name := "a.b.mp3"; file_blob := file_blob sample_file |})
  = "a.zip"
  /\ originalFileName "a.b.mp3" = "a.b".
Proof.
  split; [|reflexivity].
  destruct (zipName_first_dot
              {| file_name := "a.b.mp3"; file_blob := file_blob sample_file |}
              "a" "b.mp3") as [H _].
  - reflexivity.
  - cbn. intros [H|[]]. discriminate H.
  - exact H.
Defined.

Section TranscriptionLoop.
Variable transcribeAudio : nat -> File -> answer.
Variable totalFiles : nat.

Lemma sentFiles_app e1 e2 : sentFiles (e1 ++ e2) = sentFiles e1 ++ sentFiles e2.
Proof. apply omap_app. Qed.

Lemma delays_app e1 e2 : delays (e1 ++ e2) = delays e1 ++ delays e2.
Proof. apply omap_app. Qed.

(** When every call answers a text, the loop goes through all the files:
    it keeps the texts that are not empty, in order, and waits after
    every file but the last. *)
Lemma transcriptionLoop_texts files : forall texts i all events,
  length texts = length files ->
  (forall j f t, files !! j = Some f -> texts !! j = Some t ->
                 transcribeAudio (i + j) f = Text t) ->
  (i + length files = totalFiles)%nat ->
  exists events',
    transcriptionLoop transcribeAudio totalFiles i files all events
    = (inl (all ++ filter (fun s => s <> EmptyString) texts),
       events ++ events')
    /\ sentFiles events' = files
    /\ delays events' = replicate (length files - 1) 1000.
Proof.
  induction files as [|f rest IH]; intros texts i all events Hlen Hcalls Hi.
  - destruct texts; [|discriminate Hlen]. exists []. cbn [transcriptionLoop].
    rewrite !app_nil_r. repeat split.
  - destruct texts as [|t ts]; [discriminate Hlen|].
    cbn [transcriptionLoop]. cbv zeta.
    pose proof (Hcalls 0%nat f t eq_refl eq_refl) as Hcall.
    rewrite Nat.add_0_r in Hcall. rewrite Hcall.
    cbn [length] in Hlen, Hi.
    edestruct (IH ts (S i)) as (events' & Hrun & Hsent & Hdelays).
    + lia.
    + intros j g u Hg Hu. rewrite Nat.add_succ_comm.
      apply (Hcalls (S j)); assumption.
    + lia.
    + rewrite Hrun. clear Hrun.
      assert (Hall : (match t with
                      | EmptyString => all
                      | String _ _ => all ++ [t]
                      end) ++ filter (fun s => s <> EmptyString) ts
                     = all ++ filter (fun s => s <> EmptyString) (t :: ts)).
      { destruct t as [|c t].
        - rewrite filter_cons_False by (intros H; by apply H). reflexivity.
        - rewrite filter_cons_True by discriminate.
          rewrite <- app_assoc. reflexivity. }
      rewrite Hall.
      destruct (Nat.ltb_spec i (totalFiles - 1)) as [Hlt|Hge].
      * eexists. split; [by rewrite <- !app_assoc|].
        rewrite !sentFiles_app, !delays_app, Hsent, Hdelays.
        split; [reflexivity|].
        cbn [delays omap app length].
        replace (S (length rest) - 1)%nat
          with (S (length rest - 1)) by lia.
        reflexivity.
      * eexists. split; [by rewrite <- !app_assoc|].
        rewrite !sentFiles_app, !delays_app, Hsent, Hdelays.
        split; [reflexivity|].
        cbn [length]. replace (length rest) with 0%nat by lia. reflexivity.
Qed.

(** What the loop does when every call answers a text: for each file in
    turn the message, the call and, unless the file is the last, the wait. *)
Lemma transcriptionLoop_events files : forall i all events,
  (forall j f, files !! j = Some f ->
               exists t, transcribeAudio (i + j) f = Text t) ->
  snd (transcriptionLoop transcribeAudio totalFiles i files all events)
  = events
    ++ concat
         (imap (fun j f =>
                  [SetProcessingMessage
                     ("Transcribiendo archivo " +:+ String_of (i + j + 1)
                      +:+ "/" +:+ String_of totalFiles +:+ ": "
                      +:+ file_name f);
                   TranscribeAudio f]
                  ++ (if (i + j <? totalFiles - 1)%nat then [Delay 1000]
                      else []))
               files).
Proof.
  induction files as [|f rest IH]; intros i all events Hcalls.
  - cbn [transcriptionLoop imap concat snd]. by rewrite app_nil_r.
  - cbn [transcriptionLoop]. cbv zeta.
    destruct (Hcalls 0%nat f eq_refl) as [t Hcall].
    rewrite Nat.add_0_r in Hcall. rewrite Hcall.
    rewrite IH
      by (intros j g Hg; rewrite Nat.add_succ_comm; by apply (Hcalls (S j))).
    rewrite imap_cons. cbn [concat]. rewrite Nat.add_0_r.
    assert (Htail :
      imap (fun j f0 =>
              [SetProcessingMessage
                 ("Transcribiendo archivo " +:+ String_of (S i + j + 1)
                  +:+ "/" +:+ String_of totalFiles +:+ ": "
                  +:+ file_name f0);
               TranscribeAudio f0]
              ++ (if (S i + j <? totalFiles - 1)%nat then [Delay 1000]
                  else [])) rest
      = imap ((fun j f0 =>
                 [SetProcessingMessage
                    ("Transcribiendo archivo " +:+ String_of (i + j + 1)
                     +:+ "/" +:+ String_of totalFiles +:+ ": "
                     +:+ file_name f0);
                  TranscribeAudio f0]
                 ++ (if (i + j <? totalFiles - 1)%nat then [Delay 1000]
                     else [])) ∘ S) rest).
    { apply imap_ext. intros j g _. unfold compose.
      by rewrite Nat.add_succ_comm. }
    rewrite Htail.
    destruct (i <? totalFiles - 1)%nat; by rewrite <- !app_assoc.
Qed.

(** The loop ends at the first call that fails: the files after it are
    not sent. *)
Lemma transcriptionLoop_failure files : forall k i all events file message,
  files !! k = Some file ->
  transcribeAudio (i + k) file = Failure message ->
  (forall j f, (j < k)%nat -> files !! j = Some f ->
               exists t, transcribeAudio (i + j) f = Text t) ->
  exists events',
    transcriptionLoop transcribeAudio totalFiles i files all events
    = (inr message, events ++ events')
    /\ sentFiles events' = take (S k) files.
Proof.
  induction files as [|f rest IH];
    intros k i all events file message Hfile Hfail Hbefore; [done|].
  cbn [transcriptionLoop]. cbv zeta. destruct k as [|k].
  - injection Hfile as ->. rewrite Nat.add_0_r in Hfail. rewrite Hfail.
    eexists. split; [reflexivity|]. reflexivity.
  - destruct (Hbefore 0%nat f ltac:(lia) eq_refl) as [t Hcall].
    rewrite Nat.add_0_r in Hcall. rewrite Hcall.
    edestruct (IH k (S i)) as (events' & Hrun & Hsent).
    + exact Hfile.
    + rewrite Nat.add_succ_comm. exact Hfail.
    + intros j g Hj Hg. rewrite Nat.add_succ_comm.
      apply (Hbefore (S j)); [lia|exact Hg].
    + rewrite Hrun. clear Hrun.
      destruct (Nat.ltb_spec i (totalFiles - 1)).
      * eexists. split; [by rewrite <- !app_assoc|].
        rewrite !sentFiles_app, Hsent. reflexivity.
      * eexists. split; [by rewrite <- !app_assoc|].
        rewrite !sentFiles_app, Hsent. reflexivity.
Qed.
End TranscriptionLoop.

(** X16.  [handleTranscription], a queue that is not empty and calls of
    [transcribeAudio] that all answer a text: the status is SUCCESS and the
    transcription is the texts that are not empty, in the order of the
    queue, joined by the separator; what the handler does is, for every
    file in the order of the queue, to set the message, to send the file
    and, unless the file is the last, to wait one second after it. *)
Theorem handleTranscription_success (transcribeAudio : nat -> File -> answer)
    (selectedFiles : list File) (texts : list string)
    (before : TranscriberState) :
  selectedFiles <> [] ->
  length texts = length selectedFiles ->
  (forall j f t, selectedFiles !! j = Some f -> texts !! j = Some t ->
                 transcribeAudio j f = Text t) ->
  exists events,
    handleTranscription transcribeAudio selectedFiles before
    = ({| status := SUCCESS;
          transcription :=
            join separator (filter (fun s => s <> EmptyString) texts);
          error := None;
          processingMessage := None |}, events)
    /\ events
       = concat
           (imap (fun j f =>
                    [SetProcessingMessage
                       ("Transcribiendo archivo " +:+ String_of (j + 1)
                        +:+ "/" +:+ String_of (length selectedFiles)
                        +:+ ": " +:+ file_name f);
                     TranscribeAudio f]
                    ++ (if (j <? length selectedFiles - 1)%nat
                        then [Delay 1000] else []))
                 selectedFiles)
    /\ sentFiles events = selectedFiles
    /\ delays events = replicate (length selectedFiles - 1) 1000.
Proof.
  intros Hne Hlen Hcalls. unfold handleTranscription.
  destruct selectedFiles as [|f rest] eqn:Hfiles; [done|].
  rewrite <- Hfiles in *. replace (length selectedFiles =? 0)%nat with false
    by (rewrite Hfiles; reflexivity).
  destruct (transcriptionLoop_texts transcribeAudio (length selectedFiles)
              selectedFiles texts 0 [] [] Hlen Hcalls eq_refl)
    as (events & Hrun & Hsent & Hdelays).
  assert (Hevents :
    snd (transcriptionLoop transcribeAudio (length selectedFiles) 0
           selectedFiles [] [])
    = concat
        (imap (fun j f =>
                 [SetProcessingMessage
                    ("Transcribiendo archivo " +:+ String_of (j + 1)
                     +:+ "/" +:+ String_of (length selectedFiles)
                     +:+ ": " +:+ file_name f);
                  TranscribeAudio f]
                 ++ (if (j <? length selectedFiles - 1)%nat
                     then [Delay 1000] else []))
              selectedFiles)).
  { rewrite transcriptionLoop_events; [reflexivity|].
    intros j g Hg.
    destruct (lookup_lt_is_Some_2 texts j) as [t Ht].
    - rewrite Hlen. by eapply lookup_lt_Some.
    - exists t. by apply Hcalls. }
  rewrite Hrun in Hevents |- *. cbn [snd app] in Hevents.
  exists events. cbn [app].
  split; [reflexivity|]. split; [exact Hevents|].
  split; [exact Hsent|exact Hdelays].
Qed.

Lemma handleTranscription_success_witness :
  exists events,
    handleTranscription (fun i f => Text (file_name f))
      [sample_file; sample_file]
      {| status := IDLE; transcription := ""; error := None;
         processingMessage := None |}
    = ({| status := SUCCESS;
          transcription := "nota.ogg" +:+ separator +:+ "nota.ogg";
          error := None;
          processingMessage := None |}, events)
    /\ events
       = [SetProcessingMessage "Transcribiendo archivo 1/2: nota.ogg";
          TranscribeAudio sample_file;
          Delay 1000;
          SetProcessingMessage "Transcribiendo archivo 2/2: nota.ogg";
          TranscribeAudio sample_file].
Proof.
  destruct (handleTranscription_success (fun i f => Text (file_name f))
              [sample_file; sample_file] ["nota.ogg"; "nota.ogg"]%string
              {| status := IDLE; transcription := ""; error := None;
                 processingMessage := None |})
    as (events & Hrun & Hevents & _).
  - discriminate.
  - reflexivity.
  - intros [|[|j]] f t Hf Ht; cbn in Hf, Ht; try discriminate;
      injection Hf as <-; injection Ht as <-; reflexivity.
  - exists events. split; [exact Hrun|]. rewrite Hevents. reflexivity.
Defined.

(** X17.  [handleTranscription], the first call of [transcribeAudio] that
    fails: the status is ERROR, the error is the message of the failure
    (the default message when that is empty), the transcription is empty
    whatever the calls before answered, and the files after the one that
    failed are not sent. *)
Theorem handleTranscription_failure (transcribeAudio : nat -> File -> answer)
    (selectedFiles : list File) (before : TranscriberState)
    (k : nat) (file : File) (message : string) :
  selectedFiles !! k = Some file ->
  transcribeAudio k file = Failure message ->
  (forall j f, (j < k)%nat -> selectedFiles !! j = Some f ->
               exists t, transcribeAudio j f = Text t) ->
  exists events,
    handleTranscription transcribeAudio selectedFiles before
    = ({| status := ERROR;
          transcription := EmptyString;
          error :=
            Some (or_else message
                    "Ocurrió un error inesperado durante la transcripción.");
          processingMessage := None |}, events)
    /\ sentFiles events = take (S k) selectedFiles.
Proof.
  intros Hfile Hfail Hbefore. unfold handleTranscription.
  destruct selectedFiles as [|f rest] eqn:Hfiles; [done|].
  rewrite <- Hfiles in *. replace (length selectedFiles =? 0)%nat with false
    by (rewrite Hfiles; reflexivity).
  destruct (transcriptionLoop_failure transcribeAudio (length selectedFiles)
              selectedFiles k 0 [] [] file message Hfile Hfail Hbefore)
    as (events & Hrun & Hsent).
  rewrite Hrun. exists events. cbn [app]. split; [reflexivity|exact Hsent].
Qed.

Lemma handleTranscription_failure_witness :
  exists events,
    handleTranscription (fun i f => Failure "")
      [sample_file; sample_file]
      {| status := IDLE; transcription := ""; error := None;
         processingMessage := None |}
    = ({| status := ERROR;
          transcription := "";
          error :=
            Some "Ocurrió un error inesperado durante la transcripción.";
          processingMessage := None |}, events)
    /\ sentFiles events = [sample_file].
Proof.
  destruct (handleTranscription_failure (fun i f => Failure "")
              [sample_file; sample_file]
              {| status := IDLE; transcription := ""; error := None;
                 processingMessage := None |} 0 sample_file "")
    as (events & Hrun & Hsent).
  - reflexivity.
  - reflexivity.
  - intros j f Hj. lia.
  - exists events. split; [exact Hrun|exact Hsent].
Defined.

Section Settling.
Variable fileName : string.
Variable decodedBuffer : AudioBuffer.
Variable d : number.

Lemma chunkLoop_settles n fuel : forall i log chunks,
  ltb (of_Z (Z.of_nat n)) (totalChunks decodedBuffer d) = false ->
  (i <= n)%nat -> (n - i < fuel)%nat ->
  chunkLoop fileName decodedBuffer d fuel i log chunks <> Pending.
Proof.
  induction fuel as [|fuel IH]; intros i log chunks Hn Hi Hfuel; [lia|].
  cbn [chunkLoop].
  destruct (ltb (of_Z (Z.of_nat i)) (totalChunks decodedBuffer d)) eqn:Hlt;
    [|discriminate].
  destruct (iteration fileName decodedBuffer d i chunks); [|discriminate].
  destruct (decide (i = n)) as [->|Hne]; [congruence|].
  apply IH; [exact Hn|lia|lia].
Qed.

Lemma chunkLoop_more_fuel k fuel : forall i log chunks,
  chunkLoop fileName decodedBuffer d fuel i log chunks <> Pending ->
  chunkLoop fileName decodedBuffer d (fuel + k) i log chunks
  = chunkLoop fileName decodedBuffer d fuel i log chunks.
Proof.
  induction fuel as [|fuel IH]; intros i log chunks Hrun; [done|].
  cbn [chunkLoop Nat.add] in *.
  destruct (ltb (of_Z (Z.of_nat i)) (totalChunks decodedBuffer d));
    [|reflexivity].
  destruct (iteration fileName decodedBuffer d i chunks); [|reflexivity].
  apply IH. exact Hrun.
Qed.

Lemma chunkLoop_windows fuel : forall i log chunks log' chunks',
  chunkLoop fileName decodedBuffer d fuel i log chunks
  = Resolved log' chunks' ->
  exists windows,
    windowsFrom decodedBuffer d fuel i = Some windows
    /\ length chunks' = (length chunks + length windows)%nat.
Proof.
  induction fuel as [|fuel IH]; intros i log chunks log' chunks'; [done|].
  cbn [chunkLoop windowsFrom].
  destruct (ltb (of_Z (Z.of_nat i)) (totalChunks decodedBuffer d)).
  - destruct (iteration fileName decodedBuffer d i chunks) as [chunks1|]
      eqn:Hit; [|done].
    intros Hrun. apply IH in Hrun as (windows & -> & Hlen).
    cbn [mbind option_bind]. destruct (degenerate decodedBuffer d i) eqn:Hdeg.
    + rewrite iteration_degenerate in Hit by exact Hdeg.
      injection Hit as <-. exists windows. split; [reflexivity|exact Hlen].
    + apply iteration_emits in Hit as [wav ->]; [|exact Hdeg].
      eexists. split; [reflexivity|].
      rewrite Hlen, length_app. cbn [length]. lia.
  - intros [= <- <-]. exists []. split; [reflexivity|]. cbn [length]. lia.
Qed.
End Settling.

(** X18.  [processAndSplitAudio], when [totalChunks] is not above an
    integer [n] that is not above 2^53 (up to there the counter [i] of
    the loop is an exact integer): the loop is left after [n] iterations
    at most, the run resolves or is rejected, and further iterations
    allowed change nothing. *)
Theorem processAndSplitAudio_settles (fileName : string)
    (decodedBuffer : AudioBuffer) (d : number) (n fuel k : nat) :
  Z.of_nat n <= 2 ^ 53 ->
  ltb (of_Z (Z.of_nat n)) (totalChunks decodedBuffer d) = false ->
  (n < fuel)%nat ->
  processAndSplitAudio fileName decodedBuffer d fuel <> Pending
  /\ processAndSplitAudio fileName decodedBuffer d (fuel + k)
     = processAndSplitAudio fileName decodedBuffer d fuel.
Proof.
  intros _ Hn Hfuel. unfold processAndSplitAudio.
  assert (Hsettles :
    chunkLoop fileName decodedBuffer d fuel 0 [Decodificando] [] <> Pending)
    by (apply (chunkLoop_settles _ _ _ n); [exact Hn|lia|lia]).
  split; [exact Hsettles|].
  apply chunkLoop_more_fuel. exact Hsettles.
Qed.

Lemma processAndSplitAudio_settles_witness :
  processAndSplitAudio "audio.mp3" (mono 8 (silence 20)) (of_Z 1) 9
  = processAndSplitAudio "audio.mp3" (mono 8 (silence 20)) (of_Z 1) 4.
Proof.
  apply (processAndSplitAudio_settles "audio.mp3" (mono 8 (silence 20))
           (of_Z 1) 3 4 5).
  - apply Z.leb_le. reflexivity.
  - reflexivity.
  - lia.
Defined.

(** X19.  [processAndSplitAudio]: a run that resolves holds one chunk for
    every frame window of the loop, the windows being those of the
    iterations that are not skipped. *)
Theorem chunks_match_windows (fileName : string)
    (decodedBuffer : AudioBuffer) (d : number) (fuel : nat)
    (log : list progress) (chunks : list EncodedChunk) :
  processAndSplitAudio fileName decodedBuffer d fuel = Resolved log chunks ->
  exists windows,
    emittedWindows decodedBuffer d fuel = Some windows
    /\ length chunks = length windows.
Proof.
  intros Hrun. unfold processAndSplitAudio in Hrun.
  apply chunkLoop_windows in Hrun as (windows & Hw & Hlen).
  exists windows. split; [exact Hw|exact Hlen].
Qed.

Lemma chunks_match_windows_witness :
  emittedWindows (mono 44100 (silence 15)) (of_Z 180) 2 = Some [(0, 14)].
Proof.
  destruct (chunks_match_windows "audio.mp3" (mono 44100 (silence 15))
              (of_Z 180) 2 [Decodificando; Procesando 1 (of_Z 1)]
              [{| name := "audio_parte_01.wav";
                  blob := wavBlob (mono 44100 (silence 14)) |}])
    as (windows & Hw & _).
  - vm_compute. reflexivity.
  - rewrite Hw. f_equal. vm_compute in Hw. injection Hw as <-. reflexivity.
Defined.
